(** * Verification of the @goobits/blog content pipeline

    A shallow embedding of the utilities of the blog package (slug
    normalisation, taxonomy filters, route loaders, the post pipeline, the
    read-time estimate, the RSS serializer, the configuration merge and the
    message getter) together with the properties stated about them.

    JavaScript strings are sequences of UTF-16 code units; numbers that the
    code only uses as integers are embedded in [Z]. *)

From Stdlib Require Import String Ascii DecimalString.
From Stdlib Require Import List NArith ZArith Bool Lia.
From Stdlib Require Import Sorting.Sorted Sorting.Permutation.
Import ListNotations.

Set Implicit Arguments.

(* ================================================================== *)
(** * JavaScript strings, character classes and the regular expressions
      used by the package *)
(* ================================================================== *)

Module Js.

(** A string is its list of UTF-16 code units. *)
Definition jsstring := list N.

(** ASCII literals. *)
Definition lit (s : string) : jsstring :=
  map N_of_ascii (list_ascii_of_string s).

Fixpoint eqb (a b : jsstring) : bool :=
  match a, b with
  | [], [] => true
  | x :: a', y :: b' => N.eqb x y && eqb a' b'
  | _, _ => false
  end.

(** Truthiness of a string value: only the empty string is falsy. *)
Definition truthy (s : jsstring) : bool :=
  match s with [] => false | _ :: _ => true end.

(** Truthiness of [string | undefined]. *)
Definition truthyOpt (o : option jsstring) : bool :=
  match o with Some s => truthy s | None => false end.

(** [a || b] on [string | undefined] with a string default. *)
Definition orElse (o : option jsstring) (d : jsstring) : jsstring :=
  match o with
  | Some s => if truthy s then s else d
  | None => d
  end.

Definition inRange (lo hi c : N) : bool := (N.leb lo c && N.leb c hi)%bool.

(** The [\s] class, which is also the set removed by [trim]: TAB, LF, VT,
    FF, CR, SP, NBSP, U+1680, U+2000..U+200A, LS, PS, U+202F, U+205F,
    U+3000 and U+FEFF. *)
Definition isWhiteSpace (c : N) : bool :=
  (inRange 9 13 c || N.eqb c 32 || N.eqb c 160 || N.eqb c 5760
   || inRange 8192 8202 c || N.eqb c 8232 || N.eqb c 8233
   || N.eqb c 8239 || N.eqb c 8287 || N.eqb c 12288 || N.eqb c 65279)%bool.

(** Line terminators: LF, CR, LS, PS.  [.] matches everything else. *)
Definition isLineTerminator (c : N) : bool :=
  (N.eqb c 10 || N.eqb c 13 || N.eqb c 8232 || N.eqb c 8233)%bool.

Definition isDot (c : N) : bool := negb (isLineTerminator c).

Definition isUpperAscii (c : N) : bool := inRange 65 90 c.

(** The [\w] class without the [u] and [i] flags: [A-Za-z0-9_]. *)
Definition isWordChar (c : N) : bool :=
  (inRange 48 57 c || inRange 65 90 c || N.eqb c 95 || inRange 97 122 c)%bool.

Definition isChar (x : N) (c : N) : bool := N.eqb c x.
Definition notChar (x : N) (c : N) : bool := negb (N.eqb c x).

Definition hyphen : N := 45.

(** ** [String.prototype.trim] *)

Fixpoint dropWhile (p : N -> bool) (s : jsstring) : jsstring :=
  match s with
  | [] => []
  | c :: r => if p c then dropWhile p r else s
  end.

Definition trimStart (s : jsstring) : jsstring := dropWhile isWhiteSpace s.
Definition trimEnd (s : jsstring) : jsstring := rev (dropWhile isWhiteSpace (rev s)).
Definition trim (s : jsstring) : jsstring := trimEnd (trimStart s).

(** ** Regular expressions

    Every regular expression of the package is a sequence of atoms, each
    a character class, a greedy repetition of a class, or an anchor.  The
    matcher below is the backtracking matcher of the language restricted
    to that fragment: a repetition first takes as many units as it can
    and gives them back one at a time while the rest of the pattern
    fails. *)

Inductive atom :=
| Cls (p : N -> bool)     (* one unit of the class *)
| Star (p : N -> bool)    (* class*  *)
| Plus (p : N -> bool)    (* class+  *)
| Bol (multiline : bool)  (* ^ *)
| Eol (multiline : bool). (* $ *)

Definition regex := list atom.

Definition atBol (multiline : bool) (prev : option N) : bool :=
  match prev with
  | None => true
  | Some c => multiline && isLineTerminator c
  end.

Definition atEol (multiline : bool) (s : jsstring) : bool :=
  match s with
  | [] => true
  | c :: _ => multiline && isLineTerminator c
  end.

(** The state of a match is the unit before the current position (for
    [^]) and the input that is left. *)
Definition mstate := (option N * jsstring)%type.

Fixpoint star (p : N -> bool) (k : option N -> jsstring -> option mstate)
         (prev : option N) (s : jsstring) : option mstate :=
  match s with
  | c :: r =>
      if p c
      then match star p k (Some c) r with
           | Some e => Some e
           | None => k prev s
           end
      else k prev s
  | [] => k prev s
  end.

Fixpoint matchHere (re : regex) (prev : option N) (s : jsstring) : option mstate :=
  match re with
  | [] => Some (prev, s)
  | Cls p :: re' =>
      match s with
      | c :: r => if p c then matchHere re' (Some c) r else None
      | [] => None
      end
  | Star p :: re' => star p (matchHere re') prev s
  | Plus p :: re' =>
      match s with
      | c :: r => if p c then star p (matchHere re') (Some c) r else None
      | [] => None
      end
  | Bol m :: re' => if atBol m prev then matchHere re' prev s else None
  | Eol m :: re' => if atEol m s then matchHere re' prev s else None
  end.

(** The pieces of a string scanned with a global regular expression: the
    units outside every match, and the matches, from left to right.  After
    an empty match the scan moves on by one unit. *)
Inductive piece :=
| Unit (c : N)
| Hit (text : jsstring).

Fixpoint scan (fuel : nat) (re : regex) (prev : option N) (s : jsstring) : list piece :=
  match fuel with
  | O => map Unit s
  | S fuel' =>
      match matchHere re prev s with
      | Some (prev', rest) =>
          if (length rest <? length s)%nat
          then Hit (firstn (length s - length rest) s) :: scan fuel' re prev' rest
          else match s with
               | [] => [Hit []]
               | c :: r => Hit [] :: Unit c :: scan fuel' re (Some c) r
               end
      | None =>
          match s with
          | [] => []
          | c :: r => Unit c :: scan fuel' re (Some c) r
          end
      end
  end.

Definition matchAll (re : regex) (s : jsstring) : list piece :=
  scan (S (length s)) re None s.

Definition isHit (p : piece) : bool :=
  match p with Hit _ => true | Unit _ => false end.

(** [s.replace(/re/g, repl)] for a replacement without [$] patterns. *)
Definition replaceAll (re : regex) (repl : jsstring) (s : jsstring) : jsstring :=
  flat_map (fun p => match p with Unit c => [c] | Hit _ => repl end) (matchAll re s).

(** [(s.match(/re/g) || []).length]. *)
Definition countMatches (re : regex) (s : jsstring) : nat :=
  length (filter isHit (matchAll re s)).

(** [s.replace(/re/, repl)] and [s.replace('text', repl)]: the first match
    only. *)
Fixpoint replaceFirst (re : regex) (repl : jsstring) (prev : option N) (s : jsstring)
  : jsstring :=
  match matchHere re prev s with
  | Some (_, rest) => repl ++ rest
  | None =>
      match s with
      | [] => []
      | c :: r => c :: replaceFirst re repl (Some c) r
      end
  end.

(** A literal search string as a pattern. *)
Definition literal (t : jsstring) : regex := map (fun x => Cls (isChar x)) t.

(** [s.split(/re/)] for a pattern that never matches the empty string:
    the texts between the matches. *)
Fixpoint splitPieces (cur : jsstring) (ps : list piece) : list jsstring :=
  match ps with
  | [] => [cur]
  | Unit c :: ps' => splitPieces (cur ++ [c]) ps'
  | Hit _ :: ps' => cur :: splitPieces [] ps'
  end.

Definition split (re : regex) (s : jsstring) : list jsstring :=
  splitPieces [] (matchAll re s).

(** ** Numbers

    The numbers of the read-time computation: the integers and the three
    values that are not finite.  Fractions are not embedded: every
    configuration value and every count is an integer, and the only
    quotients are rounded up at once. *)
Inductive number :=
| Finite (z : Z)
| PosInfinity
| NegInfinity
| NaN.

(** [Math.ceil(a / b)] for integers [a] and [b]. *)
Definition ceilDiv (a b : Z) : number :=
  if (b =? 0)%Z
  then (if (a =? 0)%Z then NaN else if (0 <? a)%Z then PosInfinity else NegInfinity)
  else Finite (- ((- a) / b))%Z.

Definition numAdd (x y : number) : number :=
  match x, y with
  | NaN, _ | _, NaN => NaN
  | Finite a, Finite b => Finite (a + b)
  | PosInfinity, NegInfinity | NegInfinity, PosInfinity => NaN
  | PosInfinity, _ | _, PosInfinity => PosInfinity
  | NegInfinity, _ | _, NegInfinity => NegInfinity
  end.

(** [Math.max(x, y)] *)
Definition mathMax (x y : number) : number :=
  match x, y with
  | NaN, _ | _, NaN => NaN
  | PosInfinity, _ | _, PosInfinity => PosInfinity
  | NegInfinity, v | v, NegInfinity => v
  | Finite a, Finite b => Finite (Z.max a b)
  end.

(** [x * 3] *)
Definition times3 (x : number) : number :=
  match x with
  | Finite a => Finite (a * 3)
  | other => other
  end.

Definition numberTruthy (x : number) : bool :=
  match x with
  | Finite z => negb (z =? 0)%Z
  | NaN => false
  | _ => true
  end.

End Js.

Import Js.

(* ================================================================== *)
(** * Slug normalisation (blogUtils: [slugify]) *)
(* ================================================================== *)

Module Slug.

(** The class [[^\w-]]. *)
Definition notWordOrHyphen (c : N) : bool :=
  negb (isWordChar c || isChar hyphen c).

Definition asciiLower (c : N) : N :=
  if isUpperAscii c then (c + 32)%N else c.

(** [String.prototype.toLowerCase] follows the Unicode case mappings, which
    are not reproduced here.  The development is parametric in it and uses
    three of its properties: its result holds no ASCII capital, on a string
    of ASCII units it is the ASCII lower-casing, and it maps no string but
    the empty one to the empty string. *)
Record LowerCase (f : jsstring -> jsstring) : Prop := {
  lower_no_upper : forall s, Forall (fun c => isUpperAscii c = false) (f s);
  lower_ascii :
    forall s, Forall (fun c => (c < 128)%N) s -> f s = map asciiLower s;
  lower_nonempty : forall s, s <> [] -> f s <> []
}.

Section Slugify.

Variable toLowerCase : jsstring -> jsstring.

(** [text.toLowerCase().trim().replace(/\s+/g, '-')
         .replace(/[^\w-]+/g, '').replace(/--+/g, '-')] *)
Definition slugify (text : jsstring) : jsstring :=
  replaceAll [Cls (isChar hyphen); Plus (isChar hyphen)] (lit "-")
    (replaceAll [Plus notWordOrHyphen] []
       (replaceAll [Plus isWhiteSpace] (lit "-")
          (trim (toLowerCase text)))).

End Slugify.

(** The lower-casing of the strings made of ASCII and Latin-1 units and of
    the two other units whose lower case holds an ASCII letter (U+0130 and
    the Kelvin sign U+212A); any other unit is left as it is. *)
Definition lowerUnit (c : N) : list N :=
  if isUpperAscii c then [(c + 32)%N]
  else if (inRange 192 222 c && negb (N.eqb c 215))%bool then [(c + 32)%N]
  else if N.eqb c 304 then [105%N; 775%N]
  else if N.eqb c 8490 then [107%N]
  else [c].

Definition toLowerCaseLatin1 (s : jsstring) : jsstring := flat_map lowerUnit s.

(** The output alphabet of [slugify]: [a-z0-9_-]. *)
Definition isSlugChar (c : N) : bool :=
  (inRange 48 57 c || N.eqb c 95 || inRange 97 122 c || N.eqb c hyphen)%bool.

(** No two hyphens in a row. *)
Fixpoint noHyphenRun (s : jsstring) : bool :=
  match s with
  | c :: r =>
      match r with
      | c' :: _ => negb (isChar hyphen c && isChar hyphen c') && noHyphenRun r
      | [] => true
      end
  | [] => true
  end.

End Slug.

(* ================================================================== *)
(** * Posts (blogUtils: the data model) *)
(* ================================================================== *)

Module Blog.

(** The value of an optional chain that ends in a boolean test, such as
    [tags?.some(...)]: [undefined] when the chain is cut short. *)
Inductive optBool :=
| Undefined
| Bool (b : bool).

Definition toBoolean (v : optBool) : bool :=
  match v with Undefined => false | Bool b => b end.

(** [a && b], [a || b] and [!a] on such values. *)
Definition jsAnd (a b : optBool) : optBool := if toBoolean a then b else a.
Definition jsOr (a b : optBool) : optBool := if toBoolean a then a else b.
Definition jsNot (a : optBool) : optBool := Bool (negb (toBoolean a)).

Record PostAuthor := {
  author_name : jsstring
}.

(** [Partial<PostMetadata>], the value of an [i18n] entry: for each field
    [None] when the key is absent, and the value of the key otherwise.
    The [i18n] key of an entry is never read: both merges overwrite it. *)
Record LocalizedMetadata := {
  l_title : option (option jsstring);
  l_date : option (option jsstring);
  l_slug : option (option jsstring);
  l_categories : option (option (list jsstring));
  l_category : option (option jsstring);
  l_excerpt : option (option jsstring);
  l_author : option (option PostAuthor);
  l_tags : option (option (list jsstring));
  l_readTime : option (option number);
  l_updated : option (option jsstring)
}.

(** [PostMetadata].  A field is [None] when it is [undefined]; the fields
    that no modelled function reads ([featured], [image], [thumbnail]) are
    left out. *)
Record PostMetadata := {
  fm_title : option jsstring;
  fm_date : option jsstring;
  fm_slug : option jsstring;
  fm_categories : option (list jsstring);
  fm_category : option jsstring;
  fm_excerpt : option jsstring;
  fm_author : option PostAuthor;
  fm_tags : option (list jsstring);
  fm_readTime : option number;
  fm_updated : option jsstring;
  fm_i18n : option (list (jsstring * LocalizedMetadata))
}.

Record ProcessedPost := {
  post_fm : PostMetadata;          (* metadata.fm *)
  post_date : option jsstring;
  post_urlPath : jsstring;
  post_path : option jsstring;
  post_content : option jsstring;
  post_lang : option jsstring
}.

Definition over {A} (o : option A) (d : A) : A :=
  match o with Some v => v | None => d end.

(** [{ ...metadata, ...i18nData, i18n: metadata.i18n }] *)
Definition localize (m : PostMetadata) (l : LocalizedMetadata) : PostMetadata :=
  {| fm_title := over (l_title l) (fm_title m);
     fm_date := over (l_date l) (fm_date m);
     fm_slug := over (l_slug l) (fm_slug m);
     fm_categories := over (l_categories l) (fm_categories m);
     fm_category := over (l_category l) (fm_category m);
     fm_excerpt := over (l_excerpt l) (fm_excerpt m);
     fm_author := over (l_author l) (fm_author m);
     fm_tags := over (l_tags l) (fm_tags m);
     fm_readTime := over (l_readTime l) (fm_readTime m);
     fm_updated := over (l_updated l) (fm_updated m);
     fm_i18n := fm_i18n m |}.

(** The part of [blogConfig] that the modelled functions read. *)
Record ReadTimeOptions := {
  wordsPerMinute : option Z;
  defaultTime : option Z;
  minTimeForLongArticle : option Z;
  minTimeForVeryLongArticle : option Z;
  longArticleThreshold : option Z;
  veryLongArticleThreshold : option Z;
  headingsWeight : option Z
}.

Record BlogConfig := {
  cfg_name : jsstring;
  cfg_description : jsstring;
  cfg_uri : jsstring;
  cfg_excerptLength : Z;          (* posts.excerptLength *)
  cfg_readTime : option ReadTimeOptions (* posts.readTime *)
}.

(** ** Taxonomy *)

Definition SlugifyFn := jsstring -> jsstring.
Definition TaxonomyExtractor := ProcessedPost -> list jsstring.

(** [arr.some(x => slugifyFn(x) === slug)] *)
Definition someSlug (slugifyFn : SlugifyFn) (slug : jsstring) (arr : list jsstring) : bool :=
  existsb (fun x => eqb (slugifyFn x) slug) arr.

(** [post.metadata.fm.tags?.some(tag => slugifyFn(tag) === slug)] *)
Definition tagsSome (slugifyFn : SlugifyFn) (slug : jsstring) (post : ProcessedPost)
  : optBool :=
  match fm_tags (post_fm post) with
  | Some tags => Bool (someSlug slugifyFn slug tags)
  | None => Undefined
  end.

(** [Array.isArray(categories) && categories.some(...)] *)
Definition hasMatchingCategoryArray (slugifyFn : SlugifyFn) (slug : jsstring)
           (post : ProcessedPost) : bool :=
  match fm_categories (post_fm post) with
  | Some cats => someSlug slugifyFn slug cats
  | None => false
  end.

(** [typeof category === 'string' && slugifyFn(category) === slug] *)
Definition hasMatchingSingularCategory (slugifyFn : SlugifyFn) (slug : jsstring)
           (post : ProcessedPost) : bool :=
  match fm_category (post_fm post) with
  | Some cat => eqb (slugifyFn cat) slug
  | None => false
  end.

Definition filterPostsByCategory (posts : list ProcessedPost) (categorySlug : jsstring)
           (slugifyFn : SlugifyFn) : list ProcessedPost :=
  filter (fun post =>
    let inArray := hasMatchingCategoryArray slugifyFn categorySlug post in
    let inSingular := hasMatchingSingularCategory slugifyFn categorySlug post in
    let isTagOnly :=
      jsAnd (jsAnd (tagsSome slugifyFn categorySlug post) (Bool (negb inArray)))
            (Bool (negb inSingular)) in
    toBoolean (jsAnd (Bool (inArray || inSingular)) (jsNot isTagOnly)))
    posts.

Definition filterPostsByTag (posts : list ProcessedPost) (tagSlug : jsstring)
           (slugifyFn : SlugifyFn) : list ProcessedPost :=
  filter (fun post =>
    let hasMatchingTag := tagsSome slugifyFn tagSlug post in
    let isCategoryOnly :=
      ((hasMatchingCategoryArray slugifyFn tagSlug post
        && negb (toBoolean (tagsSome slugifyFn tagSlug post)))
       || (hasMatchingSingularCategory slugifyFn tagSlug post
           && negb (toBoolean (tagsSome slugifyFn tagSlug post))))%bool in
    toBoolean (jsAnd hasMatchingTag (Bool (negb isCategoryOnly))))
    posts.

(** The filters without their exclusion clause. *)
Definition filterPostsByCategory_simplified (posts : list ProcessedPost)
           (categorySlug : jsstring) (slugifyFn : SlugifyFn) : list ProcessedPost :=
  filter (fun post =>
    (hasMatchingCategoryArray slugifyFn categorySlug post
     || hasMatchingSingularCategory slugifyFn categorySlug post)%bool) posts.

Definition filterPostsByTag_simplified (posts : list ProcessedPost)
           (tagSlug : jsstring) (slugifyFn : SlugifyFn) : list ProcessedPost :=
  filter (fun post => toBoolean (tagsSome slugifyFn tagSlug post)) posts.

(** What it means for a post to carry a term as a category or as a tag. *)
Definition categoryMatches (slugifyFn : SlugifyFn) (slug : jsstring) (post : ProcessedPost)
  : Prop :=
  (exists cats c, fm_categories (post_fm post) = Some cats /\ In c cats
                  /\ slugifyFn c = slug)
  \/ (exists c, fm_category (post_fm post) = Some c /\ slugifyFn c = slug).

Definition tagMatches (slugifyFn : SlugifyFn) (slug : jsstring) (post : ProcessedPost)
  : Prop :=
  exists tags t, fm_tags (post_fm post) = Some tags /\ In t tags /\ slugifyFn t = slug.

Definition getPostCategories (post : ProcessedPost) : list jsstring :=
  match fm_categories (post_fm post) with
  | Some cats => cats
  | None =>
      match fm_category (post_fm post) with
      | Some cat => if truthy cat then [cat] else []
      | None => []
      end
  end.

Definition getPostTags (post : ProcessedPost) : list jsstring :=
  match fm_tags (post_fm post) with
  | Some tags => tags
  | None => []
  end.

(** [posts.flatMap(extractorFn).find(term => slugifyFn(term) === slug)
     || slug] *)
Definition getOriginalTaxonomyName (posts : list ProcessedPost)
           (extractorFn : TaxonomyExtractor) (slugifiedTerm : jsstring)
           (slugifyFn : SlugifyFn) : jsstring :=
  orElse (find (fun term => eqb (slugifyFn term) slugifiedTerm)
               (flat_map extractorFn posts))
         slugifiedTerm.

End Blog.

(* ================================================================== *)
(** * Route loaders (handlers/routeUtils: [loadCategory], [loadTag]) *)
(* ================================================================== *)

Module Routes.
Import Blog.

Record HttpError := {
  err_message : jsstring;
  err_status : Z
}.

Definition createHttpError (message : jsstring) (status : Z) : HttpError :=
  {| err_message := message; err_status := status |}.

Record CategoryInfo := {
  info_description : option jsstring;
  info_image : option jsstring;
  info_alt : option jsstring
}.

Record CategoryData := {
  cat_posts : list ProcessedPost;
  cat_allPosts : list ProcessedPost;
  cat_category : jsstring;
  cat_currentCategory : jsstring;
  cat_description : option jsstring;
  cat_image : option jsstring;
  cat_imageAlt : option jsstring;
  cat_lang : jsstring
}.

Record TagData := {
  tag_posts : list ProcessedPost;
  tag_allPosts : list ProcessedPost;
  tag_tag : jsstring;
  tag_currentTag : jsstring;
  tag_lang : jsstring
}.

(** [x || null] *)
Definition orNull (o : option jsstring) : option jsstring :=
  match o with
  | Some s => if truthy s then Some s else None
  | None => None
  end.

Fixpoint lookup {A} (key : jsstring) (entries : list (jsstring * A)) : option A :=
  match entries with
  | [] => None
  | (k, v) :: rest => if eqb k key then Some v else lookup key rest
  end.

(** [param.replace(/\/$/, '')] *)
Definition stripTrailingSlash (param : jsstring) : jsstring :=
  replaceFirst [Cls (isChar 47); Eol false] [] None param.

Section Loaders.

Variable toLowerCase : jsstring -> jsstring.

Let slugify := Slug.slugify toLowerCase.

(** The loaders await [getAllPosts({ lang })] and, for a category,
    [loadCategoryDescriptions(lang)]; the two awaited values are the
    arguments [allPosts] and [categoryDescriptions].  A result is the
    thrown error or the page data. *)
Definition loadCategory (allPosts : list ProcessedPost)
           (categoryDescriptions : list (jsstring * CategoryInfo))
           (categorySlugParam lang : jsstring) : HttpError + CategoryData :=
  if negb (truthy categorySlugParam)
  then inl (createHttpError (lit "Category not specified") 404)
  else
    let slug := stripTrailingSlash categorySlugParam in
    let slugLowerCase := toLowerCase slug in
    let categoryInfo :=
      over (lookup slugLowerCase categoryDescriptions)
           {| info_description := None; info_image := None; info_alt := None |} in
    let posts := filterPostsByCategory allPosts slugLowerCase slugify in
    let originalCategory :=
      getOriginalTaxonomyName allPosts getPostCategories slugLowerCase slugify in
    if (Nat.eqb (length posts) 0 && negb (truthy originalCategory))%bool
    then inl (createHttpError
                (lit "Category " ++ [34%N] ++ slug ++ [34%N] ++ lit " not found or has no posts") 404)
    else inr {| cat_posts := posts;
                cat_allPosts := allPosts;
                cat_category := orElse (Some originalCategory) slug;
                cat_currentCategory := orElse (Some originalCategory) slug;
                cat_description := orNull (info_description categoryInfo);
                cat_image := orNull (info_image categoryInfo);
                cat_imageAlt := orNull (info_alt categoryInfo);
                cat_lang := lang |}.

Definition loadTag (allPosts : list ProcessedPost) (tagSlugParam lang : jsstring)
  : HttpError + TagData :=
  if negb (truthy tagSlugParam)
  then inl (createHttpError (lit "Tag not specified") 404)
  else
    let slug := stripTrailingSlash tagSlugParam in
    let slugLowerCase := toLowerCase slug in
    let posts := filterPostsByTag allPosts slugLowerCase slugify in
    let originalTag :=
      getOriginalTaxonomyName allPosts getPostTags slugLowerCase slugify in
    if (Nat.eqb (length posts) 0 && negb (truthy originalTag))%bool
    then inl (createHttpError
                (lit "Tag " ++ [34%N] ++ slug ++ [34%N] ++ lit " not found or has no posts") 404)
    else inr {| tag_posts := posts;
                tag_allPosts := allPosts;
                tag_tag := orElse (Some originalTag) slug;
                tag_currentTag := orElse (Some originalTag) slug;
                tag_lang := lang |}.

End Loaders.

(** The condition of the claim: some post matches the slug, or a term of
    some post has the slug. *)
Definition termExists (slugifyFn : SlugifyFn) (extractorFn : TaxonomyExtractor)
           (slug : jsstring) (allPosts : list ProcessedPost) : Prop :=
  exists term, In term (flat_map extractorFn allPosts) /\ slugifyFn term = slug.

End Routes.

(* ================================================================== *)
(** * Read time (utils/readTimeUtils) *)
(* ================================================================== *)

Module ReadTime.
Import Blog.

Record ReadTimeConfig := {
  rt_wordsPerMinute : Z;
  rt_defaultTime : Z;
  rt_minTimeForLongArticle : Z;
  rt_minTimeForVeryLongArticle : Z;
  rt_longArticleThreshold : Z;
  rt_veryLongArticleThreshold : Z;
  rt_headingsWeight : Z
}.

Definition DEFAULT_READ_TIME_CONFIG : ReadTimeConfig :=
  {| rt_wordsPerMinute := 225;
     rt_defaultTime := 3;
     rt_minTimeForLongArticle := 5;
     rt_minTimeForVeryLongArticle := 10;
     rt_longArticleThreshold := 1500;
     rt_veryLongArticleThreshold := 3000;
     rt_headingsWeight := 5 |}.

Definition noOptions : ReadTimeOptions :=
  {| wordsPerMinute := None; defaultTime := None; minTimeForLongArticle := None;
     minTimeForVeryLongArticle := None; longArticleThreshold := None;
     veryLongArticleThreshold := None; headingsWeight := None |}.

(** [{ ...base, ...options }] *)
Definition spread (base : ReadTimeConfig) (options : ReadTimeOptions) : ReadTimeConfig :=
  {| rt_wordsPerMinute := over (wordsPerMinute options) (rt_wordsPerMinute base);
     rt_defaultTime := over (defaultTime options) (rt_defaultTime base);
     rt_minTimeForLongArticle :=
       over (minTimeForLongArticle options) (rt_minTimeForLongArticle base);
     rt_minTimeForVeryLongArticle :=
       over (minTimeForVeryLongArticle options) (rt_minTimeForVeryLongArticle base);
     rt_longArticleThreshold :=
       over (longArticleThreshold options) (rt_longArticleThreshold base);
     rt_veryLongArticleThreshold :=
       over (veryLongArticleThreshold options) (rt_veryLongArticleThreshold base);
     rt_headingsWeight := over (headingsWeight options) (rt_headingsWeight base) |}.

(** [/<[^>]*>/g], [/\s+/] and [/^#+\s+.+$/gm] *)
Definition htmlTag : regex := [Cls (isChar 60); Star (notChar 62); Cls (isChar 62)].
Definition whiteSpaceRun : regex := [Plus isWhiteSpace].
Definition headingLine : regex :=
  [Bol true; Plus (isChar 35); Plus isWhiteSpace; Plus isDot; Eol true].

(** [content.replace(/<[^>]*>/g, '').trim().split(/\s+/).filter(Boolean).length] *)
Definition wordCount (content : jsstring) : nat :=
  length (filter truthy (split whiteSpaceRun (trim (replaceAll htmlTag [] content)))).

(** [(content.match(/^#+\s+.+$/gm) || []).length] *)
Definition headingCount (content : jsstring) : nat :=
  countMatches headingLine content.

Section WithConfig.

Variable blogConfig : BlogConfig.

(** [{ ...DEFAULT_READ_TIME_CONFIG, ...(blogConfig?.posts?.readTime || {}),
       ...options }] *)
Definition mergedConfig (options : ReadTimeOptions) : ReadTimeConfig :=
  spread (spread DEFAULT_READ_TIME_CONFIG (over (cfg_readTime blogConfig) noOptions))
         options.

(** [options.defaultTime ?? config?.posts?.readTime?.defaultTime
     ?? DEFAULT_READ_TIME_CONFIG.defaultTime] *)
Definition getDefaultTime (options : ReadTimeOptions) : Z :=
  match defaultTime options with
  | Some t => t
  | None =>
      match cfg_readTime blogConfig with
      | Some o => over (defaultTime o) (rt_defaultTime DEFAULT_READ_TIME_CONFIG)
      | None => rt_defaultTime DEFAULT_READ_TIME_CONFIG
      end
  end.

Definition calculateReadTime (content : jsstring) (options : ReadTimeOptions) : number :=
  if negb (truthy content)
  then Finite (getDefaultTime options)
  else
    let config := mergedConfig options in
    let wordCount := Z.of_nat (wordCount content) in
    let headingCount := Z.of_nat (headingCount content) in
    let readTime := ceilDiv wordCount (rt_wordsPerMinute config) in
    let readTime :=
      if (0 <? headingCount)%Z
      then numAdd readTime (ceilDiv headingCount (rt_headingsWeight config))
      else readTime in
    let readTime :=
      if (rt_veryLongArticleThreshold config <? wordCount)%Z
      then mathMax readTime (Finite (rt_minTimeForVeryLongArticle config))
      else if (rt_longArticleThreshold config <? wordCount)%Z
           then mathMax readTime (Finite (rt_minTimeForLongArticle config))
           else readTime in
    mathMax readTime (Finite (rt_defaultTime config)).

(** The argument of [getPostReadTime] as [getAllPosts] builds it. *)
Record ReadTimePost := {
  rtp_readTime : option number;
  rtp_excerpt : option jsstring;
  rtp_content : option jsstring
}.

Definition getPostReadTime (post : ReadTimePost) (options : ReadTimeOptions) : number :=
  let explicit :=
    match rtp_readTime post with
    | Some t => if numberTruthy t then Some t else None
    | None => None
    end in
  match explicit with
  | Some t => t
  | None =>
      if truthyOpt (rtp_content post)
      then calculateReadTime (over (rtp_content post) []) options
      else if truthyOpt (rtp_excerpt post)
           then mathMax (times3 (calculateReadTime (over (rtp_excerpt post) []) options))
                    (Finite (rt_defaultTime (mergedConfig options)))
           else Finite (getDefaultTime options)
  end.

End WithConfig.

(** ** The estimate in the words of its description *)

Definition ceilQuotient (a b : Z) : Z := (- ((- a) / b))%Z.

(** The number of maximal runs of units that are not white space. *)
Fixpoint countWords (inWord : bool) (s : jsstring) : nat :=
  match s with
  | [] => if inWord then 1 else 0
  | c :: r =>
      if isWhiteSpace c
      then (if inWord then 1 else 0) + countWords false r
      else countWords true r
  end.

(** The number of lines that begin with [#]; a line ends at a line
    terminator. *)
Fixpoint linesStartingWithHash (atLineStart : bool) (s : jsstring) : nat :=
  match s with
  | [] => 0
  | c :: r =>
      (if (atLineStart && isChar 35 c)%bool then 1 else 0)
      + linesStartingWithHash (isLineTerminator c) r
  end.

(** The floors of the estimate, for a word count [w] and a heading count
    [h]. *)
Definition estimate (config : ReadTimeConfig) (w h : Z) : Z :=
  let base :=
    (ceilQuotient w (rt_wordsPerMinute config)
     + ceilQuotient h (rt_headingsWeight config))%Z in
  let floored :=
    if (rt_veryLongArticleThreshold config <? w)%Z
    then Z.max base (rt_minTimeForVeryLongArticle config)
    else if (rt_longArticleThreshold config <? w)%Z
         then Z.max base (rt_minTimeForLongArticle config)
         else base in
  Z.max floored (rt_defaultTime config).

(** A full configuration as options. *)
Definition allOptions (config : ReadTimeConfig) : ReadTimeOptions :=
  {| wordsPerMinute := Some (rt_wordsPerMinute config);
     defaultTime := Some (rt_defaultTime config);
     minTimeForLongArticle := Some (rt_minTimeForLongArticle config);
     minTimeForVeryLongArticle := Some (rt_minTimeForVeryLongArticle config);
     longArticleThreshold := Some (rt_longArticleThreshold config);
     veryLongArticleThreshold := Some (rt_veryLongArticleThreshold config);
     headingsWeight := Some (rt_headingsWeight config) |}.

End ReadTime.

(* ================================================================== *)
(** * RSS feed (blogUtils: [generateRssFeed]) *)
(* ================================================================== *)

Module Rss.
Import Blog.

Definition nl : jsstring := [10%N].
Definition dq : jsstring := [34%N].

(** [s.includes(pat)] *)
Fixpoint startsWith (pat s : jsstring) : bool :=
  match pat, s with
  | [], _ => true
  | x :: pat', c :: s' => N.eqb x c && startsWith pat' s'
  | _ :: _, [] => false
  end.

Fixpoint includes (pat s : jsstring) : bool :=
  startsWith pat s ||
  match s with
  | [] => false
  | _ :: s' => includes pat s'
  end.

(** [s.substring(0, n)] *)
Definition substring0 (s : jsstring) (n : Z) : jsstring := firstn (Z.to_nat n) s.

(** [s.lastIndexOf(' ')], [-1] when there is no space. *)
Fixpoint lastIndexOfFrom (x : N) (i : Z) (s : jsstring) : Z :=
  match s with
  | [] => (-1)%Z
  | c :: r =>
      let later := lastIndexOfFrom x (i + 1) r in
      if (0 <=? later)%Z then later else if N.eqb c x then i else (-1)%Z
  end.

Definition lastIndexOf (x : N) (s : jsstring) : Z := lastIndexOfFrom x 0 s.

Section WithConfig.

Variable config : BlogConfig.

(** [getPostUrl(post)], without the language prefix. *)
Definition getPostUrl (post : ProcessedPost) : jsstring :=
  if negb (truthy (post_urlPath post)) then cfg_uri config
  else cfg_uri config ++ post_urlPath post.

(** [/[#*_~`]/g] *)
Definition isMarkdownMark (c : N) : bool :=
  (N.eqb c 35 || N.eqb c 42 || N.eqb c 95 || N.eqb c 126 || N.eqb c 96)%bool.

Definition getPostExcerpt (post : ProcessedPost) (maxLength : option Z) : jsstring :=
  let limit := over maxLength (cfg_excerptLength config) in
  let excerpt := orElse (fm_excerpt (post_fm post)) [] in
  let excerpt :=
    if (negb (truthy excerpt) && truthyOpt (post_content post))%bool
    then substring0
           (trim (replaceAll [Plus (isChar 10)] (lit " ")
                    (replaceAll [Cls isMarkdownMark] []
                       (replaceAll ReadTime.htmlTag [] (over (post_content post) [])))))
           (limit * 2)
    else excerpt in
  if (limit <? Z.of_nat (length excerpt))%Z
  then
    let truncated := substring0 excerpt limit in
    let lastSpace := lastIndexOf 32 truncated in
    (if (0 <? lastSpace)%Z then substring0 truncated lastSpace else truncated)
    ++ lit "..."
  else excerpt.

(** [escapeXml]: five global replacements, [&] first. *)
Definition escapeXml (str : jsstring) : jsstring :=
  if eqb str [] then []
  else
    replaceAll [Cls (isChar 39)] (lit "&apos;")
      (replaceAll [Cls (isChar 34)] (lit "&quot;")
         (replaceAll [Cls (isChar 62)] (lit "&gt;")
            (replaceAll [Cls (isChar 60)] (lit "&lt;")
               (replaceAll [Cls (isChar 38)] (lit "&amp;") str)))).

(** [[...new Set(categories)]]: the first occurrence of each element, in
    order. *)
Fixpoint dedupe (seen : list jsstring) (l : list jsstring) : list jsstring :=
  match l with
  | [] => []
  | x :: r =>
      if existsb (eqb x) seen then dedupe seen r else x :: dedupe (x :: seen) r
  end.

(** The texts of an item before they are escaped. *)
Definition itemTitle (post : ProcessedPost) : jsstring :=
  orElse (fm_title (post_fm post)) (lit "Untitled Post").

Definition itemDescription (post : ProcessedPost) : jsstring :=
  orElse (Some (getPostExcerpt post (Some 300%Z))) (lit "No description available").

Definition itemAuthor (post : ProcessedPost) : jsstring :=
  orElse (option_map author_name (fm_author (post_fm post))) (cfg_name config).

Definition itemCategories (post : ProcessedPost) : list jsstring :=
  let categories :=
    match fm_categories (post_fm post) with
    | Some cats => cats
    | None =>
        match fm_category (post_fm post) with
        | Some cat => if truthy cat then [cat] else []
        | None => []
        end
    end in
  let categories := categories ++ over (fm_tags (post_fm post)) [] in
  dedupe [] categories.

Definition getRssCategoriesXml (post : ProcessedPost) : jsstring :=
  concat (map (fun category =>
                 lit "    <category>" ++ escapeXml category ++ lit "</category>" ++ nl)
              (itemCategories post)).

Record RssFeedOptions := {
  siteUrl : option jsstring;
  feedTitle : option jsstring;
  feedDescription : option jsstring;
  feedPath : option jsstring;
  maxItems : option Z;
  language : option jsstring
}.

(** [arr.slice(0, n)] for an integer [n]: a negative [n] counts from the
    end. *)
Definition slice0 {A} (l : list A) (n : Z) : list A :=
  if (n <? 0)%Z
  then firstn (Z.to_nat (Z.max (Z.of_nat (length l) + n) 0)) l
  else firstn (Z.to_nat n) l.

(** [post?.metadata?.fm?.title && post?.date] *)
Definition hasTitleAndDate (post : ProcessedPost) : bool :=
  (truthyOpt (fm_title (post_fm post)) && truthyOpt (post_date post))%bool.

Definition limitedPosts (posts : list ProcessedPost) (options : RssFeedOptions)
  : list ProcessedPost :=
  slice0 (filter hasTitleAndDate posts) (over (maxItems options) 20%Z).

(** [s.endsWith('/') ? s.slice(0, -1) : s] *)
Definition dropFinalSlash (s : jsstring) : jsstring :=
  match rev s with
  | c :: r => if N.eqb c 47 then rev r else s
  | [] => s
  end.

(** The dates are formatted by the platform: [utcString d] stands for
    [new Date(d).toUTCString()] and [buildDate] for
    [new Date().toUTCString()]. *)
Variable utcString : jsstring -> jsstring.
Variable buildDate : jsstring.

Definition rssItem (baseUrl : jsstring) (post : ProcessedPost) : jsstring :=
  let postUrl := baseUrl ++ getPostUrl post in
  let pubDate := utcString (over (post_date post) []) in
  let modifiedDate :=
    match fm_updated (post_fm post) with
    | Some u => if truthy u then Some (utcString u) else None
    | None => None
    end in
  lit "  <item>" ++ nl
  ++ lit "    <title>" ++ escapeXml (itemTitle post) ++ lit "</title>" ++ nl
  ++ lit "    <link>" ++ postUrl ++ lit "</link>" ++ nl
  ++ lit "    <guid isPermaLink=" ++ dq ++ lit "true" ++ dq ++ lit ">" ++ postUrl
  ++ lit "</guid>" ++ nl
  ++ lit "    <pubDate>" ++ pubDate ++ lit "</pubDate>" ++ nl
  ++ (if truthyOpt modifiedDate
      then lit "    <lastBuildDate>" ++ over modifiedDate [] ++ lit "</lastBuildDate>" ++ nl
      else [])
  ++ nl
  ++ lit "    <description>" ++ escapeXml (itemDescription post) ++ lit "</description>" ++ nl
  ++ lit "    <author>" ++ escapeXml (itemAuthor post) ++ lit "</author>" ++ nl
  ++ getRssCategoriesXml post ++ nl
  ++ lit "  </item>" ++ nl.

Definition rssHeader (baseUrl : jsstring) (options : RssFeedOptions) : jsstring :=
  lit "<?xml version=" ++ dq ++ lit "1.0" ++ dq ++ lit " encoding=" ++ dq ++ lit "UTF-8"
  ++ dq ++ lit " ?>" ++ nl
  ++ lit "<rss version=" ++ dq ++ lit "2.0" ++ dq
  ++ lit " xmlns:atom=" ++ dq ++ lit "http://www.w3.org/2005/Atom" ++ dq
  ++ lit " xmlns:content=" ++ dq ++ lit "http://purl.org/rss/1.0/modules/content/" ++ dq
  ++ lit ">" ++ nl
  ++ lit "<channel>" ++ nl
  ++ lit "  <title>" ++ escapeXml (over (feedTitle options) (cfg_name config))
  ++ lit "</title>" ++ nl
  ++ lit "  <link>" ++ baseUrl ++ cfg_uri config ++ lit "</link>" ++ nl
  ++ lit "  <description>"
  ++ escapeXml (over (feedDescription options) (cfg_description config))
  ++ lit "</description>" ++ nl
  ++ lit "  <language>" ++ over (language options) (lit "en") ++ lit "</language>" ++ nl
  ++ lit "  <lastBuildDate>" ++ buildDate ++ lit "</lastBuildDate>" ++ nl
  ++ lit "  <generator>SvelteKit Blog RSS Generator</generator>" ++ nl
  ++ lit "  <atom:link href=" ++ dq ++ baseUrl
  ++ over (feedPath options) (cfg_uri config ++ lit "/rss.xml") ++ dq
  ++ lit " rel=" ++ dq ++ lit "self" ++ dq
  ++ lit " type=" ++ dq ++ lit "application/rss+xml" ++ dq ++ lit " />" ++ nl.

Definition rssFooter : jsstring := lit "</channel>" ++ nl ++ lit "</rss>".

(** The result is the thrown error message or the document.  The posts
    are records of strings, for which no step of an item throws, so the
    [catch] that skips an item is never entered. *)
Definition generateRssFeed (posts : list ProcessedPost) (options : RssFeedOptions)
  : jsstring + jsstring :=
  if negb (truthyOpt (siteUrl options))
  then inl (lit "siteUrl is required to generate RSS feed")
  else
    let baseUrl := dropFinalSlash (over (siteUrl options) []) in
    let xml :=
      fold_left (fun xml post => xml ++ rssItem baseUrl post)
                (limitedPosts posts options) (rssHeader baseUrl options) in
    inr (xml ++ rssFooter).

End WithConfig.

(** ** The escaping in one pass *)

Definition isSpecial (c : N) : bool :=
  (N.eqb c 38 || N.eqb c 60 || N.eqb c 62 || N.eqb c 34 || N.eqb c 39)%bool.

(** The units that must not be left in a text: the two angle brackets and
    the two quotes. *)
Definition isMarkup (c : N) : bool :=
  (N.eqb c 60 || N.eqb c 62 || N.eqb c 34 || N.eqb c 39)%bool.

Definition entity (c : N) : jsstring :=
  if N.eqb c 38 then lit "&amp;"
  else if N.eqb c 60 then lit "&lt;"
  else if N.eqb c 62 then lit "&gt;"
  else if N.eqb c 34 then lit "&quot;"
  else if N.eqb c 39 then lit "&apos;"
  else [c].

End Rss.

(* ================================================================== *)
(** * Values and objects *)
(* ================================================================== *)

Module JsValue.

(** The values that a configuration or a message table holds.  A function
    is named and its behaviour left to the caller of the model.  An object
    is its prototype ([None] for [Object.prototype]) and its own
    properties in insertion order; the keys of an object are distinct. *)
#[local] Unset Elimination Schemes.

Inductive value :=
| VUndefined
| VNull
| VBool (b : bool)
| VNum (z : Z)
| VStr (s : jsstring)
| VFun (name : jsstring)
| VArr (items : list value)
| VObj (proto : option value) (props : list (jsstring * value)).

#[local] Set Elimination Schemes.

Definition props := list (jsstring * value).
Definition object := (option value * props)%type.

Fixpoint getOwn (ps : props) (key : jsstring) : option value :=
  match ps with
  | [] => None
  | (k, v) :: rest => if eqb k key then Some v else getOwn rest key
  end.

(** The own property names of [Object.prototype]. *)
Definition objectPrototypeKeys : list jsstring :=
  [lit "constructor"; lit "__defineGetter__"; lit "__defineSetter__";
   lit "hasOwnProperty"; lit "__lookupGetter__"; lit "__lookupSetter__";
   lit "isPrototypeOf"; lit "propertyIsEnumerable"; lit "toString"; lit "valueOf";
   lit "__proto__"; lit "toLocaleString"].

(** [o[key]] for an object [o] whose prototype is [Object.prototype]: the
    own property, else the member of [Object.prototype] (the accessor
    [__proto__] gives the prototype object, which is not modelled further
    and stands as an object without properties), else [undefined]. *)
Definition get (ps : props) (key : jsstring) : value :=
  match getOwn ps key with
  | Some v => v
  | None =>
      if eqb key (lit "__proto__") then VObj (Some VNull) []
      else if existsb (eqb key) objectPrototypeKeys then VFun key
      else VUndefined
  end.

Fixpoint update (ps : props) (key : jsstring) (v : value) : props :=
  match ps with
  | [] => []
  | (k, w) :: rest => if eqb k key then (k, v) :: rest else (k, w) :: update rest key v
  end.

(** [o[key] = v]: an own property is overwritten; without one, the key
    [__proto__] reaches the setter of [Object.prototype], which replaces
    the prototype when [v] is an object or [null]; any other key becomes a
    new own property. *)
Definition set (o : object) (key : jsstring) (v : value) : object :=
  let (proto, ps) := o in
  match getOwn ps key with
  | Some _ => (proto, update ps key v)
  | None =>
      if eqb key (lit "__proto__")
      then match v with
           | VObj _ _ | VNull => (Some v, ps)
           | _ => o
           end
      else (proto, ps ++ [(key, v)])
  end.

(** [value !== null && typeof value === 'object' && !Array.isArray(value)] *)
Definition isPlainObject (v : value) : bool :=
  match v with VObj _ _ => true | _ => false end.

End JsValue.

(* ================================================================== *)
(** * Configuration merge (config/secureDeepMerge) *)
(* ================================================================== *)

Module Merge.
Import JsValue.

Definition dangerousKeys : list jsstring :=
  [lit "__proto__"; lit "constructor"; lit "prototype"].

(** [typeof key === 'string' && !dangerousKeys.includes(key)] *)
Definition isSafeKey (key : jsstring) : bool :=
  negb (existsb (eqb key) dangerousKeys).

(** The own properties of [isPlainObject(v) ? v : {}]. *)
Definition plainOrEmpty (v : value) : props :=
  match v with VObj _ ps => ps | _ => [] end.

(** [target] is given by its own properties, which [{ ...target }] copies
    into a new object.  The warning that is logged for a skipped key is
    not modelled. *)
Fixpoint secureDeepMerge (target : props) (source : value) {struct source} : object :=
  let result : object := (None, target) in
  match source with
  | VObj _ sourceProps =>
      fold_left
        (fun (result : object) (entry : jsstring * value) =>
           let (key, sourceValue) := entry in
           if negb (isSafeKey key) then result
           else
             let targetValue := get (snd result) key in
             match sourceValue with
             | VObj _ _ =>
                 let targetObj := plainOrEmpty targetValue in
                 let merged := secureDeepMerge targetObj sourceValue in
                 set result key (VObj (fst merged) (snd merged))
             | _ => set result key sourceValue
             end)
        sourceProps result
  | _ => result
  end.

(** The keys of every object of a value are distinct. *)
Fixpoint distinct (keys : list jsstring) : bool :=
  match keys with
  | [] => true
  | k :: rest => negb (existsb (eqb k) rest) && distinct rest
  end.

Fixpoint wellFormed (v : value) : bool :=
  match v with
  | VObj proto ps =>
      distinct (map fst ps)
      && forallb (fun entry => wellFormed (snd entry)) ps
      && match proto with Some p => wellFormed p | None => true end
  | VArr items => forallb wellFormed items
  | _ => true
  end.

(** What the claim says of one call, and of the calls below it: the
    result has the prototype of a fresh object, at a dangerous key it has
    the own property of the base and nothing else, and at a safe key where
    the overlay holds an object it holds the merge of the base's object
    (or of an empty one) with that object, of which the same is true. *)
#[local] Unset Elimination Schemes.

Inductive MergedSafely : props -> value -> object -> Prop :=
| merged_safely target source result :
    fst result = None ->
    (forall key, isSafeKey key = false -> getOwn (snd result) key = getOwn target key) ->
    (forall proto sourceProps key proto' props',
        source = VObj proto sourceProps ->
        In (key, VObj proto' props') sourceProps ->
        isSafeKey key = true ->
        exists merged,
          getOwn (snd result) key = Some (VObj (fst merged) (snd merged))
          /\ MergedSafely (plainOrEmpty (get target key)) (VObj proto' props') merged) ->
    MergedSafely target source result.

#[local] Set Elimination Schemes.

End Merge.

(* ================================================================== *)
(** * Messages (utils/messages: [createMessageGetter]) *)
(* ================================================================== *)

Module Messages.
Import JsValue.

(** [defaultMessages]; a function message is named after its key. *)
Definition defaultMessages : props :=
  [(lit "readMore", VStr (lit "Read more"));
    (lit "loading", VStr (lit "Loading..."));
    (lit "author", VStr (lit "Author"));
    (lit "tags", VStr (lit "Tags"));
    (lit "relatedPosts", VStr (lit "Related Posts"));
    (lit "backToBlog", VStr (lit "Back to Blog"));
    (lit "linkCopied", VStr (lit "Link copied to clipboard"));
    (lit "copyLink", VStr (lit "Copy link"));
    (lit "sharePost", VStr (lit "Share this post"));
    (lit "minRead", VFun (lit "minRead"));
    (lit "itemCount", VFun (lit "itemCount"));
    (lit "untitledPost", VStr (lit "Untitled Post"));
    (lit "by", VStr (lit "by"));
    (lit "publishedOn", VStr (lit "Published on"));
    (lit "shareTitle", VStr (lit "Share this article"));
    (lit "shareSubtitle", VStr (lit "If you found this article helpful, share it with your network"));
    (lit "shareFacebook", VStr (lit "Share on Facebook"));
    (lit "shareTwitter", VStr (lit "Share on Twitter"));
    (lit "shareCopyLink", VStr (lit "Copy Link"));
    (lit "uncategorized", VStr (lit "Uncategorized"));
    (lit "moreTags", VStr (lit "More tags"));
    (lit "moreCategories", VStr (lit "More categories"));
    (lit "exploreArticles", VFun (lit "exploreArticles"));
    (lit "categories", VStr (lit "Categories"));
    (lit "subscribe", VStr (lit "Subscribe"));
    (lit "subscribeRSS", VStr (lit "Subscribe to RSS"));
    (lit "newsletterTitle", VStr (lit "Subscribe to our Newsletter"));
    (lit "newsletterDescription", VStr (lit "Get the latest posts delivered right to your inbox"));
    (lit "newsletterSubscribe", VStr (lit "Subscribe"));
    (lit "emailPlaceholder", VStr (lit "Enter your email"));
    (lit "previousPage", VStr (lit "Previous"));
    (lit "nextPage", VStr (lit "Next"));
    (lit "page", VFun (lit "page"));
    (lit "pageOf", VFun (lit "pageOf"));
    (lit "noMorePosts", VStr (lit "No more posts to load"));
    (lit "loadMore", VStr (lit "Load more posts"));
    (lit "homePageTitle", VFun (lit "homePageTitle"));
    (lit "homePageDescription", VFun (lit "homePageDescription"));
    (lit "categoryPageTitle", VFun (lit "categoryPageTitle"));
    (lit "categoryPageDescription", VFun (lit "categoryPageDescription"));
    (lit "tagPageTitle", VFun (lit "tagPageTitle"));
    (lit "tagPageDescription", VFun (lit "tagPageDescription"));
    (lit "noPosts", VStr (lit "No posts available"));
    (lit "noPostsInCategory", VStr (lit "No posts in this category"));
    (lit "noPostsWithTag", VStr (lit "No posts with this tag"));
    (lit "searchNoResults", VStr (lit "No results found"));
    (lit "loadingError", VStr (lit "Error loading content"));
    (lit "notFound", VStr (lit "Content not found"));
    (lit "switchLanguage", VStr (lit "Switch language"));
    (lit "currentLanguage", VStr (lit "Current language"));
    (lit "home", VStr (lit "Home"));
    (lit "shareOnFacebook", VStr (lit "Share on Facebook"));
    (lit "shareOnTwitter", VStr (lit "Share on Twitter"));
    (lit "shareOnLinkedIn", VStr (lit "Share on LinkedIn"));
    (lit "shareViaEmail", VStr (lit "Share via Email"));
    (lit "publishDate", VStr (lit "Published"));
    (lit "updateDate", VStr (lit "Updated"));
    (lit "readTime", VStr (lit "Read time"));
    (lit "searchPosts", VStr (lit "Search posts"));
    (lit "searchPlaceholder", VStr (lit "Search..."));
    (lit "searchResults", VFun (lit "searchResults"));
    (lit "archive", VStr (lit "Archive"));
    (lit "archiveByMonth", VStr (lit "Posts by Month"));
    (lit "archiveByYear", VStr (lit "Posts by Year"));
    (lit "comments", VStr (lit "Comments"));
    (lit "addComment", VStr (lit "Add a comment"));
    (lit "noComments", VStr (lit "No comments yet"));
    (lit "copyright", VFun (lit "copyright"));
    (lit "skipToContent", VStr (lit "Skip to content"));
    (lit "menuToggle", VStr (lit "Toggle menu"));
    (lit "closeMenu", VStr (lit "Close menu"));
    (lit "expandMenu", VStr (lit "Expand menu"));
    (lit "today", VStr (lit "Today"));
    (lit "yesterday", VStr (lit "Yesterday"));
    (lit "daysAgo", VFun (lit "daysAgo"));
    (lit "monthsAgo", VFun (lit "monthsAgo"));
    (lit "yearsAgo", VFun (lit "yearsAgo"))].

Section Getter.

(** The result of calling a function value on arguments, [None] when the
    call throws. *)
Variable call : jsstring -> list value -> option value.

Definition isRejectedKey (key : value) : bool :=
  match key with
  | VStr k => (eqb k (lit "__proto__") || eqb k (lit "constructor"))%bool
  | _ => true
  end.

(** What a call of the getter does. *)
Inductive outcome :=
| Returns (v : value)
| Throws.

(** [fallback || text] *)
Definition fallbackOr (fallback : option jsstring) (text : jsstring) : outcome :=
  Returns (VStr (orElse fallback text)).

(** The getter that [createMessageGetter(messages)] returns, for a
    [messages] object whose prototype is [Object.prototype].  The key is
    any value, as the test of its type in the code allows. *)
Definition createMessageGetter (messages : props) (key : value)
           (fallback : option jsstring) (args : list value) : outcome :=
  match key with
  | VStr k =>
      if (eqb k (lit "__proto__") || eqb k (lit "constructor"))%bool
      then fallbackOr fallback (lit "INVALID_KEY")
      else
        match get messages k with
        | VUndefined =>
            match get defaultMessages k with
            | VUndefined => fallbackOr fallback k
            | VFun f =>
                match call f args with
                | Some r => Returns r
                | None => fallbackOr fallback k
                end
            | VObj proto nested =>
                match args with
                | VStr nestedKey :: _ =>
                    if (negb (eqb nestedKey (lit "__proto__"))
                        && negb (eqb nestedKey (lit "constructor")))%bool
                    then match get nested nestedKey with
                         | VUndefined => Returns (VObj proto nested)
                         | nestedValue => Returns nestedValue
                         end
                    else Returns (VObj proto nested)
                | _ => Returns (VObj proto nested)
                end
            | VNull =>
                (* typeof null is 'object': the nested key is read from null *)
                match args with
                | VStr nestedKey :: _ =>
                    if (negb (eqb nestedKey (lit "__proto__"))
                        && negb (eqb nestedKey (lit "constructor")))%bool
                    then Throws
                    else Returns VNull
                | _ => Returns VNull
                end
            | defaultMsg => Returns defaultMsg
            end
        | VFun f =>
            match call f args with
            | Some r => Returns r
            | None => fallbackOr fallback k
            end
        | userMsg => Returns userMsg
        end
  | _ => fallbackOr fallback (lit "INVALID_KEY")
  end.

End Getter.

End Messages.

(* ================================================================== *)
(** * The post pipeline (blogUtils: [getAllPosts]) *)
(* ================================================================== *)

Module Pipeline.
Import Blog.

(** [String(z)] for an integer. *)
Definition numToString (z : Z) : jsstring :=
  lit (NilZero.string_of_int (Z.to_int z)).

(** [s.padStart(n, c)] for a one-unit filler. *)
Definition padStart (n : nat) (c : N) (s : jsstring) : jsstring :=
  repeat c (n - length s) ++ s.

(** [s.split('/').pop()]: what follows the last slash. *)
Fixpoint lastSegment (cur : jsstring) (s : jsstring) : jsstring :=
  match s with
  | [] => cur
  | c :: r => if N.eqb c 47 then lastSegment [] r else lastSegment (cur ++ [c]) r
  end.

Definition filenameOf (filePath : jsstring) : jsstring :=
  let filenamePart := lastSegment [] filePath in
  if truthy filenamePart
  then replaceFirst (literal (lit ".md")) [] None filenamePart
  else [].

(** What awaiting a resolver gives: a rejection, or the module, of which
    only the metadata is read ([None] when the module or its metadata is
    missing). *)
Inductive resolved :=
| Rejected
| Module (metadata : option PostMetadata).

Definition PostFilesRecord := list (jsstring * resolved).

Record GetAllPostsOptions := {
  opt_lang : option jsstring;
  opt_includeContent : option bool;
  opt_includeLocalizedVersions : option bool
}.

(** The cache key is the JSON text of the three options; the triple
    stands for it. *)
Definition CacheKey := (jsstring * bool * bool)%type.

Definition cacheKeyEqb (a b : CacheKey) : bool :=
  let '(l1, c1, v1) := a in
  let '(l2, c2, v2) := b in
  (eqb l1 l2 && Bool.eqb c1 c2 && Bool.eqb v1 v2)%bool.

Record CacheEntry := {
  cached_posts : list ProcessedPost;
  cached_timestamp : Z
}.

(** [postsCache], a [Map]. *)
Definition Cache := CacheKey -> option CacheEntry.

Definition emptyCache : Cache := fun _ => None.

Definition cacheSet (cache : Cache) (key : CacheKey) (entry : CacheEntry) : Cache :=
  fun k => if cacheKeyEqb k key then Some entry else cache k.

Definition CACHE_TTL : Z := 1000 * 60 * 5.

Section WithPlatform.

(** The platform: [parseDate s] is the time value of [new Date(s)]
    ([None] for an invalid date), [getFullYear] and [getMonth] its fields
    in local time, [getMarkdownContent] the body read from the file of a
    path (the empty string when it cannot be read). *)
Variable parseDate : jsstring -> option Z.
Variable getFullYear : Z -> Z.
Variable getMonth : Z -> Z.
Variable getMarkdownContent : jsstring -> jsstring.
Variable blogConfig : BlogConfig.

Definition slugOf (metadata : PostMetadata) (filePath : jsstring) : jsstring :=
  orElse (fm_slug metadata) (filenameOf filePath).

(** [`/${ year }/${ month }/${ slug }`] *)
Definition urlPathOf (time : Z) (slug : jsstring) : jsstring :=
  lit "/" ++ numToString (getFullYear time)
  ++ lit "/" ++ padStart 2 48 (numToString (getMonth time + 1))
  ++ lit "/" ++ slug.

Definition withReadTime (m : PostMetadata) (readTime : number) : PostMetadata :=
  {| fm_title := fm_title m; fm_date := fm_date m; fm_slug := fm_slug m;
     fm_categories := fm_categories m; fm_category := fm_category m;
     fm_excerpt := fm_excerpt m; fm_author := fm_author m; fm_tags := fm_tags m;
     fm_readTime := Some readTime; fm_updated := fm_updated m;
     fm_i18n := fm_i18n m |}.

(** [postModule.metadata.readTime] is truthy. *)
Definition hasReadTime (m : PostMetadata) : bool :=
  match fm_readTime m with
  | Some t => numberTruthy t
  | None => false
  end.

(** One entry of the mapping, after its resolver resolved: no post, one
    post, or the base post followed by its localized versions. *)
Definition processPost (lang : jsstring) (includeContent includeLocalizedVersions : bool)
           (filePath : jsstring) (postModule : option PostMetadata)
  : list ProcessedPost :=
  match postModule with
  | None => []
  | Some metadata =>
      match fm_date metadata with
      | None => []
      | Some date =>
          if negb (truthy date) then []
          else
            match parseDate date with
            | None => []
            | Some postDate =>
                let slug := slugOf metadata filePath in
                let urlPath := urlPathOf postDate slug in
                let content :=
                  if includeContent then getMarkdownContent filePath else [] in
                let readTime :=
                  if hasReadTime metadata
                  then over (fm_readTime metadata) (Finite 0)
                  else ReadTime.getPostReadTime blogConfig
                         {| ReadTime.rtp_readTime := fm_readTime metadata;
                            ReadTime.rtp_excerpt := fm_excerpt metadata;
                            ReadTime.rtp_content :=
                              if truthy content then Some content else None |}
                         ReadTime.noOptions in
                let metadata :=
                  if hasReadTime metadata then metadata
                  else withReadTime metadata readTime in
                let importPath :=
                  replaceFirst (literal (lit "@blog/")) (lit "/src/content/Blog/")
                               None filePath in
                let basePost :=
                  {| post_fm := metadata;
                     post_date := Some date;
                     post_urlPath := urlPath;
                     post_path := Some importPath;
                     post_content := Some (if includeContent then content else []);
                     post_lang := Some (lit "en") |} in
                match fm_i18n metadata with
                | Some i18n =>
                    if includeLocalizedVersions
                    then basePost
                         :: map (fun entry =>
                                   {| post_fm := localize metadata (snd entry);
                                      post_date := post_date basePost;
                                      post_urlPath := post_urlPath basePost;
                                      post_path := post_path basePost;
                                      post_content := post_content basePost;
                                      post_lang := Some (fst entry) |})
                                i18n
                    else
                      match (if eqb lang (lit "en") then None
                             else Routes.lookup lang i18n) with
                      | Some i18nData =>
                          [{| post_fm := localize metadata i18nData;
                              post_date := post_date basePost;
                              post_urlPath := post_urlPath basePost;
                              post_path := post_path basePost;
                              post_content := post_content basePost;
                              post_lang := Some lang |}]
                      | None => [basePost]
                      end
                | None => [basePost]
                end
            end
      end
  end.

(** [new Date(s).getTime()], with [NaN] as [None]. *)
Definition timeOf (post : ProcessedPost) : option Z :=
  match post_date post with
  | Some d => parseDate d
  | None => None
  end.

(** The comparator [(a, b) => time(b) - time(a)]; a [NaN] counts as 0. *)
Definition compareByDate (a b : ProcessedPost) : Z :=
  match timeOf b, timeOf a with
  | Some tb, Some ta => (tb - ta)%Z
  | _, _ => 0%Z
  end.

(** [Array.prototype.sort] is stable; for a consistent comparator its
    result is that of the stable insertion sort. *)
Fixpoint insertSorted (cmp : ProcessedPost -> ProcessedPost -> Z) (x : ProcessedPost)
         (l : list ProcessedPost) : list ProcessedPost :=
  match l with
  | [] => [x]
  | y :: r => if (cmp x y <=? 0)%Z then x :: l else y :: insertSorted cmp x r
  end.

Definition sortPosts (cmp : ProcessedPost -> ProcessedPost -> Z) (l : list ProcessedPost)
  : list ProcessedPost :=
  fold_right (insertSorted cmp) [] l.

Definition isRejected (entry : jsstring * resolved) : bool :=
  match snd entry with Rejected => true | Module _ => false end.

Definition moduleOf (r : resolved) : option PostMetadata :=
  match r with Rejected => None | Module m => m end.

(** The load of a cache miss: [None] when the [Promise.all] rejects. *)
Definition loadPosts (lang : jsstring) (includeContent includeLocalizedVersions : bool)
           (posts : PostFilesRecord) : option (list ProcessedPost) :=
  if existsb isRejected posts then None
  else
    let processedPosts :=
      map (fun entry =>
             processPost lang includeContent includeLocalizedVersions
                         (fst entry) (moduleOf (snd entry)))
          posts in
    let flattenedPosts := concat processedPosts in
    Some (sortPosts compareByDate flattenedPosts).

(** [getAllPosts(options)] in the state [cache], when [Date.now()] is
    [now] at the test of the cache and [later] when the result is stored,
    and [getBlogPostFiles()] is [posts] with its resolvers awaited.  The
    result is [None] when the promise rejects. *)
Definition getAllPosts (cache : Cache) (now later : Z) (posts : PostFilesRecord)
           (options : GetAllPostsOptions) : option (list ProcessedPost) * Cache :=
  let lang := over (opt_lang options) (lit "en") in
  let includeContent := over (opt_includeContent options) false in
  let includeLocalizedVersions := over (opt_includeLocalizedVersions options) false in
  let cacheKey := (lang, includeContent, includeLocalizedVersions) in
  let fresh :=
    match cache cacheKey with
    | Some cached =>
        if (now - cached_timestamp cached <? CACHE_TTL)%Z then Some cached else None
    | None => None
    end in
  match fresh with
  | Some cached => (Some (cached_posts cached), cache)
  | None =>
      match loadPosts lang includeContent includeLocalizedVersions posts with
      | None => (None, cache)
      | Some sortedPosts =>
          (Some sortedPosts,
           cacheSet cache cacheKey
                    {| cached_posts := sortedPosts; cached_timestamp := later |})
      end
  end.

(** [clearBlogCache()] *)
Definition clearBlogCache (cache : Cache) : Cache := emptyCache.

(** ** The invariant of the processed list *)

(** A post has a date that parses, and the path of that date. *)
Definition validPost (post : ProcessedPost) : Prop :=
  exists date time slug,
    post_date post = Some date
    /\ parseDate date = Some time
    /\ post_urlPath post = urlPathOf time slug.

(** Newest first. *)
Definition newestFirst (posts : list ProcessedPost) : Prop :=
  StronglySorted
    (fun a b => exists ta tb, timeOf a = Some ta /\ timeOf b = Some tb /\ (tb <= ta)%Z)
    posts.

(** A post of the list comes from an entry of the mapping, whose date
    parses, and has the path of that date and of the slug of the entry. *)
Definition fromEntry (posts : PostFilesRecord) (post : ProcessedPost) : Prop :=
  exists filePath metadata date time,
    In (filePath, Module (Some metadata)) posts
    /\ fm_date metadata = Some date /\ date <> []
    /\ parseDate date = Some time
    /\ post_date post = Some date
    /\ post_urlPath post = urlPathOf time (slugOf metadata filePath).

(** An entry without a usable date. *)
Definition lacksDate (postModule : option PostMetadata) : Prop :=
  match postModule with
  | None => True
  | Some metadata =>
      match fm_date metadata with
      | None => True
      | Some date => date = [] \/ parseDate date = None
      end
  end.

(** The caches that calls of [getAllPosts] and [clearBlogCache] lead to
    from the empty cache of a fresh process. *)
Inductive Reachable : Cache -> Prop :=
| reach_empty : Reachable emptyCache
| reach_clear cache : Reachable cache -> Reachable (clearBlogCache cache)
| reach_call cache now later posts options :
    Reachable cache ->
    Reachable (snd (getAllPosts cache now later posts options)).

End WithPlatform.

End Pipeline.

(* ================================================================== *)
(** * Facts about strings and the matcher *)
(* ================================================================== *)

Module JsFacts.

Lemma eqb_eq (a b : jsstring) : eqb a b = true <-> a = b.
Proof.
  revert b; induction a as [|x a IH]; intros [|y b]; simpl;
    try (split; [discriminate | congruence]); try tauto.
  rewrite andb_true_iff, N.eqb_eq, IH. split.
  - intros [-> ->]; reflexivity.
  - intros H; inversion H; auto.
Qed.

Lemma eqb_refl (a : jsstring) : eqb a a = true.
Proof. apply eqb_eq; reflexivity. Qed.

Lemma eqb_neq (a b : jsstring) : eqb a b = false <-> a <> b.
Proof.
  split.
  - intros H E. apply eqb_eq in E. congruence.
  - intros H. destruct (eqb a b) eqn:E; [apply eqb_eq in E; contradiction | reflexivity].
Qed.

(** A match leaves a suffix of the input. *)
Definition suffixOf (rest s : jsstring) : Prop := exists pre, s = pre ++ rest.

Lemma suffixOf_refl s : suffixOf s s.
Proof. exists []; reflexivity. Qed.

Lemma suffixOf_cons c rest s : suffixOf rest s -> suffixOf rest (c :: s).
Proof. intros [pre ->]. exists (c :: pre); reflexivity. Qed.

Lemma suffixOf_length rest s : suffixOf rest s -> length rest <= length s.
Proof. intros [pre ->]. rewrite length_app. lia. Qed.

Lemma star_suffix p k :
  (forall prev s e, k prev s = Some e -> suffixOf (snd e) s) ->
  forall s prev e, star p k prev s = Some e -> suffixOf (snd e) s.
Proof.
  intros Hk s; induction s as [|c r IH]; intros prev e H; simpl in H.
  - eauto.
  - destruct (p c); [|eauto].
    destruct (star p k (Some c) r) eqn:E.
    + inversion H; subst. apply suffixOf_cons. eauto.
    + eauto.
Qed.

Lemma matchHere_suffix re :
  forall prev s e, matchHere re prev s = Some e -> suffixOf (snd e) s.
Proof.
  induction re as [|a re IH]; intros prev s e H; simpl in H.
  - inversion H; subst; apply suffixOf_refl.
  - destruct a.
    + destruct s as [|c r]; [discriminate|].
      destruct (p c); [|discriminate]. apply suffixOf_cons; eauto.
    + eapply star_suffix; eauto.
    + destruct s as [|c r]; [discriminate|].
      destruct (p c); [|discriminate]. apply suffixOf_cons.
      eapply star_suffix; eauto.
    + destruct (atBol multiline prev); [eauto|discriminate].
    + destruct (atEol multiline s); [eauto|discriminate].
Qed.

(** The text produced from scanned pieces. *)
Definition render (repl : jsstring) (ps : list piece) : jsstring :=
  flat_map (fun p => match p with Unit c => [c] | Hit _ => repl end) ps.

Lemma replaceAll_render re repl s :
  replaceAll re repl s = render repl (scan (S (length s)) re None s).
Proof. reflexivity. Qed.

Lemma render_units s repl : render repl (map Unit s) = s.
Proof. induction s; simpl; congruence. Qed.

(** Replacing keeps every property of the units that the replacement text
    has too. *)
Lemma scan_Forall (Q : N -> Prop) re repl :
  Forall Q repl ->
  forall fuel prev s, Forall Q s -> Forall Q (render repl (scan fuel re prev s)).
Proof.
  intros Hr fuel; induction fuel as [|fuel IH]; intros prev s Hs; simpl.
  - rewrite render_units; assumption.
  - destruct (matchHere re prev s) as [[prev' rest]|] eqn:E.
    + destruct (length rest <? length s)%nat.
      * simpl. apply Forall_app; split; [assumption|]. apply IH.
        apply matchHere_suffix in E. destruct E as [pre ->].
        apply Forall_app in Hs; tauto.
      * destruct s as [|c r]; simpl.
        -- rewrite app_nil_r; assumption.
        -- apply Forall_app; split; [assumption|].
           inversion Hs; subst. constructor; auto.
    + destruct s as [|c r]; simpl; [constructor|].
      inversion Hs; subst. constructor; auto.
Qed.

Lemma replaceAll_Forall (Q : N -> Prop) re repl s :
  Forall Q repl -> Forall Q s -> Forall Q (replaceAll re repl s).
Proof. intros; apply scan_Forall; assumption. Qed.

(** Where the pattern matches at no position, nothing is replaced. *)
Lemma scan_no_match re repl :
  forall fuel prev s,
    (forall prev' s', suffixOf s' s -> matchHere re prev' s' = None) ->
    render repl (scan fuel re prev s) = s.
Proof.
  intros fuel; induction fuel as [|fuel IH]; intros prev s H; simpl.
  - apply render_units.
  - rewrite (H prev s (suffixOf_refl s)).
    destruct s as [|c r]; simpl; [reflexivity|].
    f_equal. apply IH. intros prev' s' Hs. apply H, suffixOf_cons, Hs.
Qed.

Lemma replaceAll_no_match re repl s :
  (forall prev' s', suffixOf s' s -> matchHere re prev' s' = None) ->
  replaceAll re repl s = s.
Proof. intros; apply scan_no_match; assumption. Qed.

(** ** Runs of one class *)

Lemma dropWhile_suffix p s : suffixOf (dropWhile p s) s.
Proof.
  induction s as [|c r IH]; simpl.
  - apply suffixOf_refl.
  - destruct (p c); [apply suffixOf_cons, IH | apply suffixOf_refl].
Qed.

Lemma dropWhile_head p s :
  match dropWhile p s with c :: _ => p c = false | [] => True end.
Proof.
  induction s as [|c r IH]; simpl; [exact I|].
  destruct (p c) eqn:E; [exact IH | exact E].
Qed.

Lemma dropWhile_none p s :
  Forall (fun c => p c = false) s -> dropWhile p s = s.
Proof. intros H; destruct H as [|c r Hc _]; simpl; [|rewrite Hc]; reflexivity. Qed.

(** A greedy repetition at the end of a pattern takes the whole run. *)
Lemma star_last p : forall s prev,
  exists prev', star p (matchHere []) prev s = Some (prev', dropWhile p s).
Proof.
  induction s as [|c r IH]; intros prev; cbn [star].
  - exists prev; reflexivity.
  - destruct (p c) eqn:E.
    + destruct (IH (Some c)) as [prev' ->]. exists prev'. simpl. rewrite E. reflexivity.
    + exists prev. simpl. rewrite E. reflexivity.
Qed.

Lemma matchHere_plus p prev s :
  match s with
  | c :: r =>
      if p c
      then exists prev', matchHere [Plus p] prev s = Some (prev', dropWhile p r)
      else matchHere [Plus p] prev s = None
  | [] => matchHere [Plus p] prev s = None
  end.
Proof.
  destruct s as [|c r]; cbn [matchHere]; [reflexivity|].
  destruct (p c); [apply star_last | reflexivity].
Qed.

Lemma matchHere_two_plus p prev s :
  match s with
  | c :: c' :: r =>
      if (p c && p c')%bool
      then exists prev', matchHere [Cls p; Plus p] prev s = Some (prev', dropWhile p r)
      else matchHere [Cls p; Plus p] prev s = None
  | _ => matchHere [Cls p; Plus p] prev s = None
  end.
Proof.
  destruct s as [|c [|c' r]]; cbn [matchHere]; try reflexivity.
  - destruct (p c); reflexivity.
  - destruct (p c); cbn [andb]; [|reflexivity].
    destruct (p c'); [apply star_last | reflexivity].
Qed.

(** [replace(/[p]+/g, ...)] leaves a string without units of the class
    as it is. *)
Lemma replaceAll_plus_none p repl s :
  Forall (fun c => p c = false) s -> replaceAll [Plus p] repl s = s.
Proof.
  intros H. apply replaceAll_no_match. intros prev' s' [pre ->].
  apply Forall_app in H. destruct H as [_ H].
  pose proof (matchHere_plus p prev' s') as M.
  destruct s' as [|c r]; [exact M|].
  inversion H; subst. rewrite H2 in M. exact M.
Qed.

(** [replace(/[p]+/g, '')] leaves no unit of the class. *)
Lemma scan_plus_strip p :
  forall fuel prev s, length s < fuel ->
    Forall (fun c => p c = false) (render [] (scan fuel [Plus p] prev s)).
Proof.
  intros fuel; induction fuel as [|fuel IH]; intros prev s Hlen; [lia|].
  cbn [scan]. pose proof (matchHere_plus p prev s) as M.
  destruct s as [|c r].
  - rewrite M. constructor.
  - destruct (p c) eqn:Ec.
    + destruct M as [prev' ->].
      pose proof (suffixOf_length (dropWhile_suffix p r)) as L.
      simpl length in *.
      destruct (Nat.ltb_spec (length (dropWhile p r)) (S (length r))); [|lia].
      simpl. apply IH. lia.
    + rewrite M. simpl. constructor; [assumption|]. apply IH. simpl in Hlen; lia.
Qed.

Lemma replaceAll_plus_strip p s :
  Forall (fun c => p c = false) (replaceAll [Plus p] [] s).
Proof. apply scan_plus_strip. lia. Qed.

End JsFacts.

(* ================================================================== *)
(** * [slugify] *)
(* ================================================================== *)

Module SlugProofs.
Import JsFacts Slug.

Ltac char_solve :=
  unfold asciiLower in *;
  unfold isSlugChar, notWordOrHyphen in *;
  unfold isWordChar, isWhiteSpace, isUpperAscii, isLineTerminator, isChar, notChar in *;
  unfold inRange, hyphen in *;
  repeat match goal with
         | |- context [if ?b then _ else _] => destruct b eqn:?
         end;
  repeat rewrite ?orb_true_iff, ?andb_true_iff, ?negb_true_iff, ?orb_false_iff,
    ?andb_false_iff, ?negb_false_iff, ?N.leb_le, ?N.eqb_eq, ?N.leb_gt, ?N.eqb_neq in *;
  try lia.

Lemma slugChar_not_space c : isSlugChar c = true -> isWhiteSpace c = false.
Proof. intros H. char_solve. Qed.

Lemma slugChar_kept c : isSlugChar c = true -> notWordOrHyphen c = false.
Proof. intros H. char_solve. Qed.

Lemma slugChar_ascii c : isSlugChar c = true -> (c < 128)%N.
Proof. intros H. char_solve. Qed.

Lemma slugChar_lower c : isSlugChar c = true -> asciiLower c = c.
Proof. intros H. char_solve. Qed.

Lemma kept_lower_is_slugChar c :
  isUpperAscii c = false -> notWordOrHyphen c = false -> isSlugChar c = true.
Proof. intros H1 H2. char_solve. Qed.

(** ** [trim] *)

Lemma dropWhile_Forall (Q : N -> Prop) p s : Forall Q s -> Forall Q (dropWhile p s).
Proof.
  induction 1 as [|c r Hc Hr IH]; simpl; [constructor|].
  destruct (p c); [assumption | constructor; assumption].
Qed.

Lemma trim_Forall (Q : N -> Prop) s : Forall Q s -> Forall Q (trim s).
Proof.
  intros H. unfold trim, trimEnd, trimStart.
  apply Forall_rev, dropWhile_Forall, Forall_rev, dropWhile_Forall, H.
Qed.

Lemma trim_no_space s :
  Forall (fun c => isWhiteSpace c = false) s -> trim s = s.
Proof.
  intros H. unfold trim, trimEnd, trimStart.
  rewrite (dropWhile_none _ H), dropWhile_none, rev_involutive; [reflexivity|].
  apply Forall_rev, H.
Qed.

(** ** Runs of hyphens *)

Definition headNotHyphen (s : jsstring) : Prop :=
  match s with c :: _ => isChar hyphen c = false | [] => True end.

Lemma noHyphenRun_cons c s :
  noHyphenRun s = true -> (isChar hyphen c = false \/ headNotHyphen s) ->
  noHyphenRun (c :: s) = true.
Proof.
  intros Hs H. destruct s as [|c' r]; [reflexivity|].
  cbn [noHyphenRun] in *. rewrite Hs, andb_true_r.
  destruct H as [H|H]; [rewrite H; reflexivity|].
  simpl in H. rewrite H, andb_false_r. reflexivity.
Qed.

Lemma noHyphenRun_tail c s : noHyphenRun (c :: s) = true -> noHyphenRun s = true.
Proof.
  destruct s as [|c' r]; [reflexivity|]. cbn [noHyphenRun].
  rewrite andb_true_iff; tauto.
Qed.

Definition collapse : regex := [Cls (isChar hyphen); Plus (isChar hyphen)].

(** [replace(/--+/g, '-')] leaves no run of hyphens. *)
Lemma scan_collapse :
  forall fuel prev s, length s < fuel ->
    let out := render (lit "-") (scan fuel collapse prev s) in
    noHyphenRun out = true /\ (headNotHyphen s -> headNotHyphen out).
Proof.
  intros fuel; induction fuel as [|fuel IH]; intros prev s Hlen; [lia|].
  cbn zeta. cbn [scan]. pose proof (matchHere_two_plus (isChar hyphen) prev s) as M.
  fold collapse in M.
  destruct s as [|c [|c' r]].
  - rewrite M. simpl. auto.
  - rewrite M. destruct fuel; simpl; auto.
  - destruct (isChar hyphen c && isChar hyphen c')%bool eqn:Ecc.
    + destruct M as [prev' ->].
      pose proof (suffixOf_length (dropWhile_suffix (isChar hyphen) r)) as L.
      destruct (Nat.ltb_spec (length (dropWhile (isChar hyphen) r))
                  (length (c :: c' :: r))) as [_|Hge]; [|simpl in Hge; lia].
      destruct (IH prev' (dropWhile (isChar hyphen) r)) as [Hn Hh];
        [simpl in Hlen; lia|].
      cbn [render flat_map]. change (lit "-") with [hyphen]. cbn [app].
      split.
      * apply noHyphenRun_cons; [exact Hn|]. right. apply Hh.
        apply dropWhile_head.
      * apply andb_true_iff in Ecc. intros Hc. simpl in Hc. destruct Ecc; congruence.
    + rewrite M.
      destruct (IH (Some c) (c' :: r)) as [Hn Hh]; [simpl in Hlen |- *; lia|].
      change (render (lit "-") (Unit c :: ?ps)) with (c :: render (lit "-") ps).
      split.
      * apply noHyphenRun_cons; [exact Hn|].
        apply andb_false_iff in Ecc. destruct Ecc as [E|E]; [left; exact E|].
        right. apply Hh. exact E.
      * intros Hc. exact Hc.
Qed.

Lemma collapse_noHyphenRun s :
  noHyphenRun (replaceAll collapse (lit "-") s) = true.
Proof. apply (@scan_collapse (S (length s)) None s). lia. Qed.

(** ... and leaves a string without such a run as it is. *)
Lemma collapse_fixed s :
  noHyphenRun s = true -> replaceAll collapse (lit "-") s = s.
Proof.
  intros H. apply replaceAll_no_match. intros prev' s' [pre ->].
  assert (Hs : noHyphenRun s' = true).
  { clear prev'. induction pre as [|c pre IH]; [exact H|].
    apply IH. eapply noHyphenRun_tail. exact H. }
  pose proof (matchHere_two_plus (isChar hyphen) prev' s') as M.
  fold collapse in M.
  destruct s' as [|c [|c' r]]; try exact M.
  cbn [noHyphenRun] in Hs. apply andb_true_iff in Hs. destruct Hs as [Hs _].
  apply negb_true_iff in Hs. rewrite Hs in M. exact M.
Qed.

(** ** The normal form of a slug *)

Section Generic.

Variable toLowerCase : jsstring -> jsstring.
Hypothesis lower : LowerCase toLowerCase.

Lemma slugify_chars x :
  Forall (fun c => isSlugChar c = true) (slugify toLowerCase x).
Proof.
  unfold slugify. fold collapse.
  apply replaceAll_Forall; [repeat constructor|].
  set (y := replaceAll [Plus isWhiteSpace] (lit "-") (trim (toLowerCase x))).
  assert (Hy : Forall (fun c => isUpperAscii c = false) y).
  { apply replaceAll_Forall; [repeat constructor|].
    apply trim_Forall, (lower_no_upper lower). }
  assert (Hz : Forall (fun c => isUpperAscii c = false)
                 (replaceAll [Plus notWordOrHyphen] [] y)).
  { apply replaceAll_Forall; [constructor | exact Hy]. }
  pose proof (replaceAll_plus_strip notWordOrHyphen y) as Hk.
  rewrite Forall_forall in *. intros c Hc.
  apply kept_lower_is_slugChar; auto.
Qed.

Lemma slugify_noHyphenRun x : noHyphenRun (slugify toLowerCase x) = true.
Proof. unfold slugify. apply collapse_noHyphenRun. Qed.

(** A string in normal form is a fixed point. *)
Lemma slugify_fixed y :
  Forall (fun c => isSlugChar c = true) y -> noHyphenRun y = true ->
  slugify toLowerCase y = y.
Proof.
  intros Hc Hn. unfold slugify. fold collapse.
  assert (E0 : toLowerCase y = y).
  { rewrite (lower_ascii lower).
    - clear Hn. induction Hc as [|c r H _ IH]; simpl; [reflexivity|].
      rewrite IH, (slugChar_lower _ H); reflexivity.
    - eapply Forall_impl; [|exact Hc]. apply slugChar_ascii. }
  assert (Hs : Forall (fun c => isWhiteSpace c = false) y)
    by (eapply Forall_impl; [|exact Hc]; apply slugChar_not_space).
  assert (Hk : Forall (fun c => notWordOrHyphen c = false) y)
    by (eapply Forall_impl; [|exact Hc]; apply slugChar_kept).
  rewrite E0, (trim_no_space Hs).
  rewrite (replaceAll_plus_none isWhiteSpace _ Hs).
  rewrite (replaceAll_plus_none notWordOrHyphen _ Hk).
  apply collapse_fixed, Hn.
Qed.

Lemma slugify_idempotent x :
  slugify toLowerCase (slugify toLowerCase x) = slugify toLowerCase x.
Proof. apply slugify_fixed; [apply slugify_chars | apply slugify_noHyphenRun]. Qed.

End Generic.

(** ** The Latin-1 lower-casing is an instance *)

Lemma lowerUnit_no_upper c : Forall (fun d => isUpperAscii d = false) (lowerUnit c).
Proof.
  unfold lowerUnit.
  destruct (isUpperAscii c) eqn:E1; [repeat constructor; char_solve|].
  destruct (inRange 192 222 c && negb (N.eqb c 215))%bool eqn:E2;
    [repeat constructor; char_solve|].
  destruct (N.eqb c 304); [repeat constructor|].
  destruct (N.eqb c 8490); repeat constructor. exact E1.
Qed.

Lemma lowerUnit_ascii c : (c < 128)%N -> lowerUnit c = [asciiLower c].
Proof.
  intros H. unfold lowerUnit, asciiLower.
  destruct (isUpperAscii c); [reflexivity|].
  destruct (inRange 192 222 c && negb (N.eqb c 215))%bool eqn:E2; [char_solve|].
  destruct (N.eqb_spec c 304); [lia|].
  destruct (N.eqb_spec c 8490); [lia|]. reflexivity.
Qed.

Lemma toLowerCaseLatin1_spec : LowerCase toLowerCaseLatin1.
Proof.
  split.
  - intros s. unfold toLowerCaseLatin1. induction s as [|c r IH]; simpl; [constructor|].
    apply Forall_app; split; [apply lowerUnit_no_upper | exact IH].
  - intros s H. unfold toLowerCaseLatin1.
    induction H as [|c r Hc _ IH]; simpl; [reflexivity|].
    rewrite (lowerUnit_ascii Hc), IH. reflexivity.
  - intros [|c r] H; [congruence|]. unfold toLowerCaseLatin1. simpl.
    unfold lowerUnit.
    destruct (isUpperAscii c); [discriminate|].
    destruct (inRange 192 222 c && negb (N.eqb c 215))%bool; [discriminate|].
    destruct (N.eqb c 304); [discriminate|].
    destruct (N.eqb c 8490); discriminate.
Defined.

(** The text [café résumé]; U+00E9 is the unit 233. *)
Definition cafe_resume : jsstring :=
  lit "caf" ++ [233%N] ++ lit " r" ++ [233%N] ++ lit "sum" ++ [233%N].

(** C8.  [slugify] is idempotent.  Its result is made of the units
    [a-z0-9_-] only (lower case, no white space, nothing outside the word
    characters and the hyphen) and holds no run of two hyphens; and
    [slugify('hello   world') = 'hello-world'],
    [slugify('café résumé') = 'caf-rsum'], [slugify('###') = '']. *)
Theorem slugify_idempotent_normal_form :
  (forall toLowerCase, LowerCase toLowerCase ->
     forall x,
       slugify toLowerCase (slugify toLowerCase x) = slugify toLowerCase x
       /\ Forall (fun c => isSlugChar c = true) (slugify toLowerCase x)
       /\ noHyphenRun (slugify toLowerCase x) = true)
  /\ slugify toLowerCaseLatin1 (lit "hello   world") = lit "hello-world"
  /\ slugify toLowerCaseLatin1 cafe_resume = lit "caf-rsum"
  /\ slugify toLowerCaseLatin1 (lit "###") = [].
Proof.
  split; [|split; [|split]; vm_compute; reflexivity].
  intros f Hf x. split; [|split].
  - apply slugify_idempotent, Hf.
  - apply slugify_chars, Hf.
  - apply slugify_noHyphenRun.
Qed.

Lemma slugify_idempotent_normal_form_witness :
  LowerCase toLowerCaseLatin1 /\
  slugify toLowerCaseLatin1 (slugify toLowerCaseLatin1 (lit "  Hello,   World -- A_b  "))
  = slugify toLowerCaseLatin1 (lit "  Hello,   World -- A_b  ").
Proof.
  split.
  - exact toLowerCaseLatin1_spec.
  - exact (proj1 (proj1 slugify_idempotent_normal_form _ toLowerCaseLatin1_spec
                    (lit "  Hello,   World -- A_b  "))).
Defined.

End SlugProofs.

(* ================================================================== *)
(** * Category and tag filters *)
(* ================================================================== *)

Module TaxonomyProofs.
Import JsFacts Blog.

Lemma someSlug_spec f s arr :
  someSlug f s arr = true <-> exists x, In x arr /\ f x = s.
Proof.
  unfold someSlug. rewrite existsb_exists.
  split; intros [x [Hx E]]; exists x; split; auto; apply eqb_eq; exact E.
Qed.

Lemma categoryMatches_spec f s p :
  (hasMatchingCategoryArray f s p || hasMatchingSingularCategory f s p)%bool = true
  <-> categoryMatches f s p.
Proof.
  unfold hasMatchingCategoryArray, hasMatchingSingularCategory, categoryMatches.
  rewrite orb_true_iff. split.
  - intros [H|H].
    + destruct (fm_categories (post_fm p)) as [cats|]; [|discriminate].
      apply someSlug_spec in H. destruct H as [c [Hc E]]. left. eauto.
    + destruct (fm_category (post_fm p)) as [c|]; [|discriminate].
      apply eqb_eq in H. right. eauto.
  - intros [[cats [c [E [Hc Hs]]]]|[c [E Hs]]]; rewrite E.
    + left. apply someSlug_spec. eauto.
    + right. apply eqb_eq. exact Hs.
Qed.

Lemma tagMatches_spec f s p :
  toBoolean (tagsSome f s p) = true <-> tagMatches f s p.
Proof.
  unfold tagsSome, tagMatches. split.
  - destruct (fm_tags (post_fm p)) as [tags|]; [|discriminate]. simpl.
    intros H. apply someSlug_spec in H. destruct H as [t [Ht E]]. eauto.
  - intros [tags [t [E [Ht Hs]]]]. rewrite E. simpl. apply someSlug_spec. eauto.
Qed.

(** The exclusion clause of each filter never fires where the positive
    test holds. *)
Lemma category_test_simplified f s p :
  toBoolean
    (jsAnd (Bool (hasMatchingCategoryArray f s p || hasMatchingSingularCategory f s p))
       (jsNot (jsAnd (jsAnd (tagsSome f s p) (Bool (negb (hasMatchingCategoryArray f s p))))
                 (Bool (negb (hasMatchingSingularCategory f s p))))))
  = (hasMatchingCategoryArray f s p || hasMatchingSingularCategory f s p)%bool.
Proof.
  destruct (hasMatchingCategoryArray f s p), (hasMatchingSingularCategory f s p),
    (tagsSome f s p) as [|[|]]; reflexivity.
Qed.

Lemma tag_test_simplified f s p :
  toBoolean
    (jsAnd (tagsSome f s p)
       (Bool (negb ((hasMatchingCategoryArray f s p && negb (toBoolean (tagsSome f s p)))
                    || (hasMatchingSingularCategory f s p
                        && negb (toBoolean (tagsSome f s p)))))))
  = toBoolean (tagsSome f s p).
Proof.
  destruct (hasMatchingCategoryArray f s p), (hasMatchingSingularCategory f s p),
    (tagsSome f s p) as [|[|]]; reflexivity.
Qed.

Lemma filterPostsByCategory_simplify posts s f :
  filterPostsByCategory posts s f = filterPostsByCategory_simplified posts s f.
Proof.
  unfold filterPostsByCategory, filterPostsByCategory_simplified.
  apply filter_ext. intros p. cbn zeta. apply category_test_simplified.
Qed.

Lemma filterPostsByTag_simplify posts s f :
  filterPostsByTag posts s f = filterPostsByTag_simplified posts s f.
Proof.
  unfold filterPostsByTag, filterPostsByTag_simplified.
  apply filter_ext. intros p. cbn zeta. apply tag_test_simplified.
Qed.

Lemma in_filterPostsByCategory posts s f p :
  In p (filterPostsByCategory posts s f) <-> In p posts /\ categoryMatches f s p.
Proof.
  rewrite filterPostsByCategory_simplify. unfold filterPostsByCategory_simplified.
  rewrite filter_In, categoryMatches_spec. reflexivity.
Qed.

Lemma in_filterPostsByTag posts s f p :
  In p (filterPostsByTag posts s f) <-> In p posts /\ tagMatches f s p.
Proof.
  rewrite filterPostsByTag_simplify. unfold filterPostsByTag_simplified.
  rewrite filter_In, tagMatches_spec. reflexivity.
Qed.

(** C1.  A post that carries the term only as a tag (some tag slugifies to
    the slug, no entry of its categories array and no singular category
    does) is never in the result of [filterPostsByCategory]; a post that
    carries it only as a category is never in the result of
    [filterPostsByTag]. *)
Theorem filters_keep_tags_and_categories_apart :
  forall (slugifyFn : SlugifyFn) (posts : list ProcessedPost) (s : jsstring)
         (p : ProcessedPost),
    (tagMatches slugifyFn s p -> ~ categoryMatches slugifyFn s p ->
     ~ In p (filterPostsByCategory posts s slugifyFn))
    /\ (categoryMatches slugifyFn s p -> ~ tagMatches slugifyFn s p ->
        ~ In p (filterPostsByTag posts s slugifyFn)).
Proof.
  intros f posts s p. split; intros _ Hno Hin.
  - apply in_filterPostsByCategory in Hin. tauto.
  - apply in_filterPostsByTag in Hin. tauto.
Qed.

(** C3.  Each filter equals the filter without its exclusion clause:
    [filterPostsByCategory] returns exactly the posts of the list of which
    a categories entry or the singular category slugifies to the slug, and
    [filterPostsByTag] exactly those of which a tag does. *)
Theorem filters_equal_their_positive_test :
  forall (posts : list ProcessedPost) (s : jsstring) (slugifyFn : SlugifyFn),
    filterPostsByCategory posts s slugifyFn
    = filterPostsByCategory_simplified posts s slugifyFn
    /\ filterPostsByTag posts s slugifyFn = filterPostsByTag_simplified posts s slugifyFn
    /\ (forall p, In p (filterPostsByCategory posts s slugifyFn)
                  <-> In p posts /\ categoryMatches slugifyFn s p)
    /\ (forall p, In p (filterPostsByTag posts s slugifyFn)
                  <-> In p posts /\ tagMatches slugifyFn s p).
Proof.
  intros posts s f.
  split; [apply filterPostsByCategory_simplify|].
  split; [apply filterPostsByTag_simplify|].
  split; intros p; [apply in_filterPostsByCategory | apply in_filterPostsByTag].
Qed.

(** ** The two posts of the end-to-end example *)

Definition emptyMetadata : PostMetadata :=
  {| fm_title := None; fm_date := None; fm_slug := None; fm_categories := None;
     fm_category := None; fm_excerpt := None; fm_author := None; fm_tags := None;
     fm_readTime := None; fm_updated := None; fm_i18n := None |}.

Definition postOf (fm : PostMetadata) : ProcessedPost :=
  {| post_fm := fm; post_date := None; post_urlPath := []; post_path := None;
     post_content := None; post_lang := None |}.

Definition categoryPost : ProcessedPost :=
  postOf {| fm_title := None; fm_date := None; fm_slug := None;
            fm_categories := Some [lit "JavaScript"];
            fm_category := None; fm_excerpt := None; fm_author := None;
            fm_tags := None; fm_readTime := None; fm_updated := None;
            fm_i18n := None |}.

Definition tagPost : ProcessedPost :=
  postOf {| fm_title := None; fm_date := None; fm_slug := None;
            fm_categories := None;
            fm_category := None; fm_excerpt := None; fm_author := None;
            fm_tags := Some [lit "JavaScript"]; fm_readTime := None;
            fm_updated := None; fm_i18n := None |}.

Definition slugifyLatin1 : SlugifyFn := Slug.slugify Slug.toLowerCaseLatin1.

Lemma filters_keep_tags_and_categories_apart_witness :
  (tagMatches slugifyLatin1 (lit "javascript") tagPost
   /\ ~ categoryMatches slugifyLatin1 (lit "javascript") tagPost
   /\ ~ In tagPost
         (filterPostsByCategory [categoryPost; tagPost] (lit "javascript") slugifyLatin1))
  /\ (categoryMatches slugifyLatin1 (lit "javascript") categoryPost
      /\ ~ tagMatches slugifyLatin1 (lit "javascript") categoryPost
      /\ ~ In categoryPost
            (filterPostsByTag [categoryPost; tagPost] (lit "javascript") slugifyLatin1)).
Proof.
  assert (T : tagMatches slugifyLatin1 (lit "javascript") tagPost).
  { exists [lit "JavaScript"], (lit "JavaScript").
    split; [reflexivity|]. split; [left; reflexivity | vm_compute; reflexivity]. }
  assert (NC : ~ categoryMatches slugifyLatin1 (lit "javascript") tagPost).
  { intros [[cats [c [E _]]]|[c [E _]]]; simpl in E; discriminate. }
  assert (C : categoryMatches slugifyLatin1 (lit "javascript") categoryPost).
  { left. exists [lit "JavaScript"], (lit "JavaScript").
    split; [reflexivity|]. split; [left; reflexivity | vm_compute; reflexivity]. }
  assert (NT : ~ tagMatches slugifyLatin1 (lit "javascript") categoryPost).
  { intros [tags [t [E _]]]; simpl in E; discriminate. }
  split.
  - split; [exact T|]. split; [exact NC|].
    exact (proj1 (filters_keep_tags_and_categories_apart slugifyLatin1
                    [categoryPost; tagPost] (lit "javascript") tagPost) T NC).
  - split; [exact C|]. split; [exact NT|].
    exact (proj2 (filters_keep_tags_and_categories_apart slugifyLatin1
                    [categoryPost; tagPost] (lit "javascript") categoryPost) C NT).
Defined.

End TaxonomyProofs.

(* ================================================================== *)
(** * Route loaders *)
(* ================================================================== *)

Module RoutesProofs.
Import JsFacts Blog Routes.

Lemma orElse_truthy o d : truthy d = true -> truthy (orElse o d) = true.
Proof.
  intros H. unfold orElse. destruct o as [s|]; [|exact H].
  destruct (truthy s) eqn:E; [exact E | exact H].
Qed.

Lemma truthy_nonempty s : s <> [] -> truthy s = true.
Proof. destruct s; [congruence | reflexivity]. Qed.

Section Generic.

Variable toLowerCase : jsstring -> jsstring.
Hypothesis lower : Slug.LowerCase toLowerCase.

(** With a slug that is not empty the name looked up is never empty, so
    the test that guards the 404 of the two loaders is never true. *)
Lemma loadCategory_returns allPosts descriptions param lang :
  stripTrailingSlash param <> [] ->
  exists data, loadCategory toLowerCase allPosts descriptions param lang = inr data.
Proof.
  intros H. unfold loadCategory.
  destruct (truthy param) eqn:Ep.
  - cbn [negb]. cbv zeta. unfold getOriginalTaxonomyName.
    rewrite (@orElse_truthy _ _ (truthy_nonempty (Slug.lower_nonempty lower H))).
    rewrite andb_false_r. eauto.
  - destruct param; [|discriminate]. exfalso. apply H. reflexivity.
Qed.

Lemma loadTag_returns allPosts param lang :
  stripTrailingSlash param <> [] ->
  exists data, loadTag toLowerCase allPosts param lang = inr data.
Proof.
  intros H. unfold loadTag.
  destruct (truthy param) eqn:Ep.
  - cbn [negb]. cbv zeta. unfold getOriginalTaxonomyName.
    rewrite (@orElse_truthy _ _ (truthy_nonempty (Slug.lower_nonempty lower H))).
    rewrite andb_false_r. eauto.
  - destruct param; [|discriminate]. exfalso. apply H. reflexivity.
Qed.

End Generic.

(** C2, at the slug [nonexistent] with no post at all: no post matches
    and no term has the slug, and both loaders return page data, with an
    empty post list and the slug as the name, where a 404 is expected. *)
Theorem loaders_return_for_an_unknown_slug :
  loadCategory Slug.toLowerCaseLatin1 [] [] (lit "nonexistent") (lit "en")
  = inr {| cat_posts := []; cat_allPosts := [];
           cat_category := lit "nonexistent";
           cat_currentCategory := lit "nonexistent";
           cat_description := None; cat_image := None; cat_imageAlt := None;
           cat_lang := lit "en" |}
  /\ loadTag Slug.toLowerCaseLatin1 [] (lit "nonexistent") (lit "en")
     = inr {| tag_posts := []; tag_allPosts := [];
              tag_tag := lit "nonexistent"; tag_currentTag := lit "nonexistent";
              tag_lang := lit "en" |}
  /\ ~ termExists (Slug.slugify Slug.toLowerCaseLatin1) getPostCategories
         (lit "nonexistent") []
  /\ ~ termExists (Slug.slugify Slug.toLowerCaseLatin1) getPostTags
         (lit "nonexistent") [].
Proof.
  split; [vm_compute; reflexivity|].
  split; [vm_compute; reflexivity|].
  split; intros [t [H _]]; exact H.
Qed.

End RoutesProofs.

(* ================================================================== *)
(** * Read time *)
(* ================================================================== *)

Module ReadTimeProofs.
Import JsFacts Blog ReadTime.

(** ** Rounding up *)

Lemma ceilQuotient_spec a b :
  (0 < b)%Z ->
  (b * (ceilQuotient a b - 1) < a <= b * ceilQuotient a b)%Z.
Proof.
  intros Hb. unfold ceilQuotient.
  pose proof (Z.div_mod (- a) b ltac:(lia)) as E.
  pose proof (Z.mod_pos_bound (- a) b Hb) as B.
  nia.
Qed.

Lemma ceilDiv_finite a b : b <> 0%Z -> ceilDiv a b = Finite (ceilQuotient a b).
Proof.
  intros H. unfold ceilDiv. destruct (Z.eqb_spec b 0); [contradiction | reflexivity].
Qed.

Lemma ceilQuotient_zero b : ceilQuotient 0 b = 0%Z.
Proof. unfold ceilQuotient. change (- 0)%Z with 0%Z. rewrite Zdiv_0_l. reflexivity. Qed.

(** ** Counting words *)

Lemma countWords_dropWhile s :
  countWords false (dropWhile isWhiteSpace s) = countWords false s.
Proof.
  induction s as [|c r IH]; simpl; [reflexivity|].
  destruct (isWhiteSpace c) eqn:E; [exact IH|].
  simpl. rewrite E. reflexivity.
Qed.

Lemma countWords_spaces_after b s tail :
  Forall (fun c => isWhiteSpace c = true) tail ->
  countWords b (s ++ tail) = countWords b s.
Proof.
  intros Ht. revert b. induction s as [|c r IH]; intros b; simpl.
  - revert b. induction Ht as [|c t Hc _ IH]; intros b; simpl; [reflexivity|].
    rewrite Hc, IH. simpl. lia.
  - destruct (isWhiteSpace c); rewrite IH; reflexivity.
Qed.

Lemma dropWhile_split p s :
  exists pre, s = pre ++ dropWhile p s /\ Forall (fun c => p c = true) pre.
Proof.
  induction s as [|c r [pre [E H]]]; simpl.
  - exists []. split; [reflexivity | constructor].
  - destruct (p c) eqn:Ec.
    + exists (c :: pre). split; [simpl; congruence | constructor; assumption].
    + exists []. split; [reflexivity | constructor].
Qed.

Lemma countWords_trim s : countWords false (trim s) = countWords false s.
Proof.
  unfold trim, trimEnd, trimStart.
  rewrite <- (countWords_dropWhile s).
  set (t := dropWhile isWhiteSpace s).
  destruct (dropWhile_split isWhiteSpace (rev t)) as [pre [E H]].
  assert (Et : t = rev (dropWhile isWhiteSpace (rev t)) ++ rev pre).
  { rewrite <- rev_app_distr, <- E, rev_involutive. reflexivity. }
  rewrite Et at 2. symmetry. apply countWords_spaces_after.
  apply Forall_rev, H.
Qed.

Lemma scan_words :
  forall fuel prev cur t, length t < fuel ->
    length (filter truthy (splitPieces cur (scan fuel whiteSpaceRun prev t)))
    = countWords (truthy cur) t.
Proof.
  intros fuel; induction fuel as [|fuel IH]; intros prev cur t Hlen; [lia|].
  cbn [scan]. pose proof (matchHere_plus isWhiteSpace prev t) as M.
  fold whiteSpaceRun in M.
  destruct t as [|c r].
  - rewrite M. simpl. destruct (truthy cur); reflexivity.
  - cbn [countWords]. destruct (isWhiteSpace c) eqn:Ec.
    + destruct M as [prev' ->].
      pose proof (suffixOf_length (dropWhile_suffix isWhiteSpace r)) as L.
      destruct (Nat.ltb_spec (length (dropWhile isWhiteSpace r)) (length (c :: r)))
        as [_|Hge]; [|simpl in Hge; lia].
      cbn [splitPieces filter].
      rewrite <- (countWords_dropWhile r).
      assert (Hrec := IH prev' [] (dropWhile isWhiteSpace r)).
      cbn [truthy] in Hrec. rewrite <- Hrec; [|simpl in Hlen; lia].
      destruct (truthy cur); reflexivity.
    + rewrite M. cbn [splitPieces].
      rewrite IH; [|simpl in Hlen; lia].
      destruct cur; reflexivity.
Qed.

(** The word count is the number of maximal runs of units that are not
    white space, in the content without its tags. *)
Lemma wordCount_countWords content :
  wordCount content = countWords false (replaceAll htmlTag [] content).
Proof.
  unfold wordCount, split, matchAll.
  rewrite (@scan_words _ None [] _ (Nat.lt_succ_diag_r _)).
  apply countWords_trim.
Qed.

(** ** The estimate *)

Lemma mergedConfig_allOptions blogConfig config :
  mergedConfig blogConfig (allOptions config) = config.
Proof. destruct config; reflexivity. Qed.

Lemma calculateReadTime_nonempty blogConfig content config :
  rt_wordsPerMinute config <> 0%Z -> rt_headingsWeight config <> 0%Z ->
  content <> [] ->
  calculateReadTime blogConfig content (allOptions config)
  = Finite (estimate config (Z.of_nat (wordCount content))
              (Z.of_nat (headingCount content))).
Proof.
  intros Hw Hh Hc. unfold calculateReadTime.
  destruct content as [|c r]; [congruence|]. cbn [truthy negb].
  rewrite mergedConfig_allOptions. cbv zeta. unfold estimate.
  set (w := Z.of_nat (wordCount (c :: r))).
  set (h := Z.of_nat (headingCount (c :: r))).
  rewrite (ceilDiv_finite w Hw), (ceilDiv_finite h Hh).
  assert (E : (if (0 <? h)%Z
               then numAdd (Finite (ceilQuotient w (rt_wordsPerMinute config)))
                        (Finite (ceilQuotient h (rt_headingsWeight config)))
               else Finite (ceilQuotient w (rt_wordsPerMinute config)))
              = Finite (ceilQuotient w (rt_wordsPerMinute config)
                        + ceilQuotient h (rt_headingsWeight config))).
  { destruct (Z.ltb_spec 0 h) as [_|Hz]; [reflexivity|].
    assert (h = 0%Z) by (subst h; lia).
    replace h with 0%Z. rewrite ceilQuotient_zero, Z.add_0_r. reflexivity. }
  rewrite E.
  destruct (rt_veryLongArticleThreshold config <? w)%Z; [reflexivity|].
  destruct (rt_longArticleThreshold config <? w)%Z; reflexivity.
Qed.

(** C5, as amended.  For a configuration with non-zero [wordsPerMinute]
    and [headingsWeight], [calculateReadTime] of a content that is not
    empty is [ceil(words / wordsPerMinute) + ceil(headings /
    headingsWeight)], floored at [minTimeForVeryLongArticle] when [words]
    exceeds [veryLongArticleThreshold], else at [minTimeForLongArticle]
    when it exceeds [longArticleThreshold], and then floored at
    [defaultTime]; [words] is the number of white-space delimited words
    of the content without its tags and [headings] the number of matches
    of [/^#+\s+.+$/gm] in the content.  Where [words] exceeds neither
    threshold the result is [max(ceil(words / wordsPerMinute) +
    ceil(headings / headingsWeight), defaultTime)], and where it exceeds
    [veryLongArticleThreshold] the result is at least
    [minTimeForVeryLongArticle].  The result for the empty content is
    [defaultTime]. *)
Theorem calculateReadTime_estimate :
  forall (blogConfig : BlogConfig) (content : jsstring) (config : ReadTimeConfig),
    rt_wordsPerMinute config <> 0%Z ->
    rt_headingsWeight config <> 0%Z ->
    let w := Z.of_nat (wordCount content) in
    let h := Z.of_nat (headingCount content) in
    (content <> [] ->
     calculateReadTime blogConfig content (allOptions config)
     = Finite (estimate config w h))
    /\ wordCount content = countWords false (replaceAll htmlTag [] content)
    /\ headingCount content = countMatches headingLine content
    /\ ((w <= rt_longArticleThreshold config)%Z ->
        (w <= rt_veryLongArticleThreshold config)%Z ->
        estimate config w h
        = Z.max (ceilQuotient w (rt_wordsPerMinute config)
                 + ceilQuotient h (rt_headingsWeight config))
                (rt_defaultTime config))
    /\ ((rt_veryLongArticleThreshold config < w)%Z ->
        (rt_minTimeForVeryLongArticle config <= estimate config w h)%Z)
    /\ calculateReadTime blogConfig [] (allOptions config)
       = Finite (rt_defaultTime config).
Proof.
  intros blogConfig content config Hw Hh w h.
  split; [intros Hc; apply calculateReadTime_nonempty; assumption|].
  split; [apply wordCount_countWords|].
  split; [reflexivity|].
  split; [|split].
  - intros Hl Hv. unfold estimate.
    destruct (Z.ltb_spec (rt_veryLongArticleThreshold config) w); [lia|].
    destruct (Z.ltb_spec (rt_longArticleThreshold config) w); [lia|]. reflexivity.
  - intros Hv. unfold estimate.
    destruct (Z.ltb_spec (rt_veryLongArticleThreshold config) w); lia.
  - reflexivity.
Qed.

Definition exampleConfig : BlogConfig :=
  {| cfg_name := lit "Blog"; cfg_description := lit "Our Blog"; cfg_uri := lit "/blog";
     cfg_excerptLength := 160; cfg_readTime := None |}.

Definition exampleContent : jsstring :=
  lit "# Title" ++ [10%N; 10%N] ++ lit "Hello <b>big</b> world".

Lemma calculateReadTime_estimate_witness :
  rt_wordsPerMinute DEFAULT_READ_TIME_CONFIG <> 0%Z
  /\ rt_headingsWeight DEFAULT_READ_TIME_CONFIG <> 0%Z
  /\ exampleContent <> []
  /\ calculateReadTime exampleConfig exampleContent (allOptions DEFAULT_READ_TIME_CONFIG)
     = Finite (estimate DEFAULT_READ_TIME_CONFIG
                 (Z.of_nat (wordCount exampleContent))
                 (Z.of_nat (headingCount exampleContent))).
Proof.
  assert (H1 : rt_wordsPerMinute DEFAULT_READ_TIME_CONFIG <> 0%Z) by (simpl; lia).
  assert (H2 : rt_headingsWeight DEFAULT_READ_TIME_CONFIG <> 0%Z) by (simpl; lia).
  assert (H3 : exampleContent <> []) by (vm_compute; discriminate).
  split; [exact H1|]. split; [exact H2|]. split; [exact H3|].
  exact (proj1 (@calculateReadTime_estimate exampleConfig exampleContent
                  DEFAULT_READ_TIME_CONFIG H1 H2) H3).
Defined.

(** Eleven lines [#a]: each begins with [#], none is matched by
    [/^#+\s+.+$/gm]. *)
Definition hashtagLines : jsstring :=
  concat (repeat (lit "#a" ++ [10%N]) 11).

(** C5 as stated fails: with the default configuration the content above
    has 11 words and 11 lines that begin with [#], so the stated value is
    [max(1 + ceil(11 / 5), 3) = 4]; the code counts no heading and
    returns [3]. *)
Lemma calculateReadTime_ignores_unspaced_hashes :
  linesStartingWithHash true hashtagLines = 11
  /\ wordCount hashtagLines = 11
  /\ calculateReadTime exampleConfig hashtagLines (allOptions DEFAULT_READ_TIME_CONFIG)
     = Finite 3
  /\ calculateReadTime exampleConfig hashtagLines (allOptions DEFAULT_READ_TIME_CONFIG)
     <> Finite (estimate DEFAULT_READ_TIME_CONFIG
                  (Z.of_nat (wordCount hashtagLines))
                  (Z.of_nat (linesStartingWithHash true hashtagLines))).
Proof.
  split; [vm_compute; reflexivity|].
  split; [vm_compute; reflexivity|].
  split; [vm_compute; reflexivity|].
  vm_compute. discriminate.
Qed.

End ReadTimeProofs.

(* ================================================================== *)
(** * RSS feed *)
(* ================================================================== *)

Module RssProofs.
Import JsFacts Blog Rss.

(** ** Replacing single units *)

Lemma scan_cls p repl :
  forall fuel prev s, length s < fuel ->
    render repl (scan fuel [Cls p] prev s)
    = flat_map (fun c => if p c then repl else [c]) s.
Proof.
  intros fuel; induction fuel as [|fuel IH]; intros prev s Hlen; [lia|].
  destruct s as [|c r]; [reflexivity|].
  cbn [scan matchHere flat_map]. destruct (p c).
  - destruct (Nat.ltb_spec (length r) (length (c :: r))) as [_|Hge];
      [|simpl in Hge; lia].
    cbn [render flat_map]. f_equal. apply IH. simpl in Hlen; lia.
  - cbn [render flat_map app]. f_equal. apply IH. simpl in Hlen; lia.
Qed.

Lemma replaceAll_cls p repl s :
  replaceAll [Cls p] repl s = flat_map (fun c => if p c then repl else [c]) s.
Proof. apply scan_cls. lia. Qed.

Lemma flat_map_comp {A B C} (f : B -> list C) (g : A -> list B) (l : list A) :
  flat_map f (flat_map g l) = flat_map (fun a => flat_map f (g a)) l.
Proof.
  induction l as [|a l IH]; simpl; [reflexivity|].
  rewrite flat_map_app, IH. reflexivity.
Qed.

(** Escaping in the order of the code is escaping every unit once: a unit
    produced by an earlier replacement is not touched by a later one. *)
Lemma escapeXml_entity s : escapeXml s = flat_map entity s.
Proof.
  unfold escapeXml. destruct (eqb s []) eqn:E.
  - apply eqb_eq in E. subst. reflexivity.
  - rewrite !replaceAll_cls, !flat_map_comp. apply flat_map_ext. intros c.
    unfold entity, isChar.
    destruct (N.eqb_spec c 38) as [->|H1]; [reflexivity|].
    destruct (N.eqb_spec c 60) as [->|H2]; [reflexivity|].
    destruct (N.eqb_spec c 62) as [->|H3]; [reflexivity|].
    destruct (N.eqb_spec c 34) as [->|H4]; [reflexivity|].
    destruct (N.eqb_spec c 39) as [->|H5]; [reflexivity|].
    cbn [flat_map app].
    repeat match goal with
           | |- context [N.eqb c ?k] => destruct (N.eqb_spec c k); [contradiction|]
           end;
      cbn [flat_map app];
    repeat match goal with
           | |- context [N.eqb c ?k] => destruct (N.eqb_spec c k); [contradiction|]
           end;
      cbn [flat_map app].
    repeat (match goal with
            | |- context [N.eqb c ?k] => destruct (N.eqb_spec c k); [contradiction|]
            end; cbn [flat_map app]).
    reflexivity.
Qed.

Lemma entity_no_markup c : Forall (fun d => isMarkup d = false) (entity c).
Proof.
  unfold entity.
  destruct (N.eqb_spec c 38); [repeat constructor|].
  destruct (N.eqb_spec c 60); [repeat constructor|].
  destruct (N.eqb_spec c 62); [repeat constructor|].
  destruct (N.eqb_spec c 34); [repeat constructor|].
  destruct (N.eqb_spec c 39); [repeat constructor|].
  repeat constructor. unfold isMarkup.
  repeat (match goal with
          | |- context [N.eqb c ?k] => destruct (N.eqb_spec c k); [contradiction|]
          end).
  reflexivity.
Qed.

Lemma escapeXml_no_markup s :
  Forall (fun d => isMarkup d = false) (escapeXml s).
Proof.
  rewrite escapeXml_entity. induction s as [|c r IH]; simpl; [constructor|].
  apply Forall_app; split; [apply entity_no_markup | exact IH].
Qed.

(** ** [includes] *)

Lemma startsWith_app pat t : startsWith pat (pat ++ t) = true.
Proof.
  induction pat as [|x pat IH]; simpl; [reflexivity|].
  rewrite N.eqb_refl, IH. reflexivity.
Qed.

Lemma includes_startsWith pat s : startsWith pat s = true -> includes pat s = true.
Proof. intros H. destruct s; simpl; rewrite H; reflexivity. Qed.

Lemma includes_app pat a b : includes pat (a ++ pat ++ b) = true.
Proof.
  induction a as [|c a IH].
  - cbn [app]. apply includes_startsWith, startsWith_app.
  - simpl. rewrite IH. apply orb_true_r.
Qed.

Lemma escapeXml_has_entity s c :
  In c s -> includes (entity c) (escapeXml s) = true.
Proof.
  intros H. rewrite escapeXml_entity.
  apply in_split in H. destruct H as [a [b ->]].
  rewrite flat_map_app. simpl. apply includes_app.
Qed.

(** ** The items of a feed *)

Lemma fold_left_append {A} (f : A -> jsstring) (l : list A) (init : jsstring) :
  fold_left (fun xml a => xml ++ f a) l init = init ++ concat (map f l).
Proof.
  revert init. induction l as [|a l IH]; intros init; simpl.
  - rewrite app_nil_r. reflexivity.
  - rewrite IH, app_assoc. reflexivity.
Qed.

Lemma slice0_length {A} (l : list A) n :
  (0 <= n)%Z -> length (slice0 l n) = Nat.min (Z.to_nat n) (length l).
Proof.
  intros H. unfold slice0. destruct (Z.ltb_spec n 0); [lia|].
  apply length_firstn.
Qed.

Lemma firstn_In {A} (l : list A) n x : In x (firstn n l) -> In x l.
Proof.
  intros H. rewrite <- (firstn_skipn n l). apply in_or_app. left. exact H.
Qed.

Lemma slice0_incl {A} (l : list A) n x : In x (slice0 l n) -> In x l.
Proof.
  unfold slice0. destruct (n <? 0)%Z; intros H; eapply firstn_In; eauto.
Qed.


Definition testConfig : BlogConfig :=
  {| cfg_name := lit "Test Blog"; cfg_description := lit "A test blog description";
     cfg_uri := lit "/blog"; cfg_excerptLength := 150; cfg_readTime := None |}.

Definition createPost (title : jsstring) (excerpt : option jsstring)
           (author : option PostAuthor) : ProcessedPost :=
  {| post_fm :=
       {| fm_title := Some title; fm_date := Some (lit "2024-01-15");
          fm_slug := None; fm_categories := None; fm_category := None;
          fm_excerpt := excerpt; fm_author := author; fm_tags := None;
          fm_readTime := None; fm_updated := None; fm_i18n := None |};
     post_date := Some (lit "2024-01-15");
     post_urlPath := lit "/2024/01/test-post";
     post_path := Some (lit "/content/Blog/2024/01/test-post.md");
     post_content := None;
     post_lang := None |}.

Definition optionsWith (max : option Z) : RssFeedOptions :=
  {| siteUrl := Some (lit "https://example.com"); feedTitle := Some (lit "Test Feed");
     feedDescription := Some (lit "Test Description");
     feedPath := Some (lit "/blog/rss.xml"); maxItems := max;
     language := Some (lit "en") |}.


(** ** The escaped texts of an item *)

Lemma includes_cons pat c s : includes pat s = true -> includes pat (c :: s) = true.
Proof. intros H. simpl. rewrite H. apply orb_true_r. Qed.

Lemma includes_skip pat a s : includes pat s = true -> includes pat (a ++ s) = true.
Proof. intros H. induction a; [exact H | apply includes_cons; assumption]. Qed.

Lemma startsWith_cut pat s b : startsWith pat s = true -> startsWith pat (s ++ b) = true.
Proof.
  revert s. induction pat as [|x pat IH]; intros s H; [reflexivity|].
  destruct s as [|c s]; [discriminate|]. simpl in *.
  apply andb_true_iff in H. destruct H as [-> H]. apply IH, H.
Qed.

Lemma includes_cut pat s b : includes pat s = true -> includes pat (s ++ b) = true.
Proof.
  induction s as [|c s IH]; intros H.
  - simpl in H. rewrite orb_false_r in H. destruct pat; [|discriminate].
    destruct b; reflexivity.
  - simpl in H. apply orb_true_iff in H. destruct H as [H|H].
    + apply includes_startsWith. apply (startsWith_cut _ _ _ H).
    + simpl. rewrite (IH H). apply orb_true_r.
Qed.

Lemma startsWith_both e pat t :
  startsWith pat t = true -> startsWith (e ++ pat) (e ++ t) = true.
Proof.
  intros H. induction e as [|c e IH]; [exact H|].
  simpl. rewrite N.eqb_refl, IH. reflexivity.
Qed.

(** An element of the document. *)
Definition element (tag text : jsstring) : jsstring :=
  lit "<" ++ tag ++ lit ">" ++ text ++ lit "</" ++ tag ++ lit ">".

Ltac find_element :=
  repeat (cbn;
          first [ reflexivity
                | apply orb_true_iff; left; apply startsWith_both; reflexivity
                | apply includes_skip ]).

Section Item.

Variable config : BlogConfig.
Variable utcString : jsstring -> jsstring.
Variable baseUrl : jsstring.
Variable post : ProcessedPost.

Lemma item_title_element :
  includes (element (lit "title") (escapeXml (itemTitle post)))
           (rssItem config utcString baseUrl post) = true.
Proof.
  unfold rssItem, element.
  generalize (escapeXml (itemTitle post)); intros e.
  find_element.
Qed.

Lemma item_description_element :
  includes (element (lit "description") (escapeXml (itemDescription config post)))
           (rssItem config utcString baseUrl post) = true.
Proof.
  unfold rssItem, element.
  generalize (escapeXml (itemDescription config post)); intros e.
  generalize (escapeXml (itemTitle post)); intros t.
  generalize (baseUrl ++ getPostUrl config post); intros u.
  generalize (utcString (over (post_date post) [])); intros d.
  match goal with
  | |- context [if ?b then ?x else ?y] => generalize (if b then x else y); intros m
  end.
  find_element.
Qed.

Lemma item_author_element :
  includes (element (lit "author") (escapeXml (itemAuthor config post)))
           (rssItem config utcString baseUrl post) = true.
Proof.
  unfold rssItem, element.
  generalize (escapeXml (itemAuthor config post)); intros e.
  generalize (escapeXml (itemDescription config post)); intros x.
  generalize (escapeXml (itemTitle post)); intros t.
  generalize (baseUrl ++ getPostUrl config post); intros u.
  generalize (utcString (over (post_date post) [])); intros d.
  match goal with
  | |- context [if ?b then ?x else ?y] => generalize (if b then x else y); intros m
  end.
  find_element.
Qed.

Lemma categories_element cat :
  In cat (itemCategories post) ->
  includes (element (lit "category") (escapeXml cat)) (getRssCategoriesXml post) = true.
Proof.
  intros H. unfold getRssCategoriesXml. apply in_split in H.
  destruct H as [l1 [l2 ->]].
  rewrite map_app, concat_app. apply includes_skip.
  cbn [map concat]. apply includes_cut.
  unfold element. generalize (escapeXml cat); intros e. find_element.
Qed.

Lemma item_category_element cat :
  In cat (itemCategories post) ->
  includes (element (lit "category") (escapeXml cat))
           (rssItem config utcString baseUrl post) = true.
Proof.
  intros H. apply categories_element in H. revert H.
  unfold rssItem.
  generalize (element (lit "category") (escapeXml cat)); intros pat.
  generalize (getRssCategoriesXml post); intros cs H.
  repeat first [ apply includes_cut; exact H
               | apply includes_skip ].
Qed.

End Item.

Lemma dedupe_In x l : forall seen,
  In x l -> existsb (eqb x) seen = false -> In x (dedupe seen l).
Proof.
  induction l as [|y l IH]; intros seen H Hs; [contradiction|].
  cbn [dedupe]. destruct H as [->|H].
  - rewrite Hs. left. reflexivity.
  - destruct (existsb (eqb y) seen) eqn:E; [apply IH; assumption|].
    destruct (eqb x y) eqn:Exy.
    + apply eqb_eq in Exy. subst. left. reflexivity.
    + right. apply IH; [assumption|]. simpl. rewrite Exy, Hs. reflexivity.
Qed.


(** The title of the escaping test: [<script>alert("xss")</script>]. *)
Definition scriptTitle : jsstring :=
  lit "<script>alert(" ++ dq ++ lit "xss" ++ dq ++ lit ")</script>".


(** An excerpt of 301 units that ends with [<]. *)
Definition longExcerpt : jsstring := repeat 97%N 300 ++ [60%N].


End RssProofs.

(* ================================================================== *)
(** * Configuration merge *)
(* ================================================================== *)

Module MergeProofs.
Import JsFacts JsValue Merge.

(** ** Own properties under assignment *)

Lemma getOwn_update_same ps key v w :
  getOwn ps key = Some w -> getOwn (update ps key v) key = Some v.
Proof.
  induction ps as [|[k x] ps IH]; simpl; [discriminate|].
  destruct (eqb k key) eqn:E; simpl; rewrite E; [reflexivity | exact IH].
Qed.

Lemma getOwn_update_other ps key v q :
  key <> q -> getOwn (update ps key v) q = getOwn ps q.
Proof.
  intros H. induction ps as [|[k x] ps IH]; simpl; [reflexivity|].
  destruct (eqb k key) eqn:E; simpl.
  - apply eqb_eq in E. subst k.
    destruct (eqb key q) eqn:E'; [apply eqb_eq in E'; contradiction | reflexivity].
  - rewrite IH. reflexivity.
Qed.

Lemma getOwn_app ps key v q :
  getOwn (ps ++ [(key, v)]) q
  = match getOwn ps q with
    | Some w => Some w
    | None => if eqb key q then Some v else None
    end.
Proof.
  induction ps as [|[k x] ps IH]; simpl; [reflexivity|].
  destruct (eqb k q); [reflexivity | exact IH].
Qed.

Lemma set_same o key v :
  key <> lit "__proto__" -> getOwn (snd (set o key v)) key = Some v.
Proof.
  intros H. destruct o as [proto ps]. unfold set.
  destruct (getOwn ps key) eqn:E.
  - simpl. eapply getOwn_update_same; eauto.
  - apply eqb_neq in H. rewrite H. simpl. rewrite getOwn_app, E, eqb_refl. reflexivity.
Qed.

Lemma set_other o key v q :
  key <> q -> getOwn (snd (set o key v)) q = getOwn (snd o) q.
Proof.
  intros H. destruct o as [proto ps]. unfold set.
  destruct (getOwn ps key) eqn:E.
  - simpl. apply getOwn_update_other, H.
  - destruct (eqb key (lit "__proto__")).
    + destruct v; reflexivity.
    + simpl. rewrite getOwn_app. apply eqb_neq in H. rewrite H.
      destruct (getOwn ps q); reflexivity.
Qed.

Lemma set_proto o key v :
  key <> lit "__proto__" -> fst (set o key v) = fst o.
Proof.
  intros H. destruct o as [proto ps]. unfold set.
  destruct (getOwn ps key); [reflexivity|].
  apply eqb_neq in H. rewrite H. reflexivity.
Qed.

Lemma get_ext ps ps' q : getOwn ps q = getOwn ps' q -> get ps q = get ps' q.
Proof. intros H. unfold get. rewrite H. reflexivity. Qed.

Lemma safe_not_proto key : isSafeKey key = true -> key <> lit "__proto__".
Proof.
  intros H E. subst. vm_compute in H. discriminate.
Qed.

(** ** One step of the loop over the keys of the overlay *)

Definition newValue (targetValue sourceValue : value) : value :=
  match sourceValue with
  | VObj _ _ =>
      let merged := secureDeepMerge (plainOrEmpty targetValue) sourceValue in
      VObj (fst merged) (snd merged)
  | _ => sourceValue
  end.

Definition step (result : object) (entry : jsstring * value) : object :=
  if negb (isSafeKey (fst entry)) then result
  else set result (fst entry) (newValue (get (snd result) (fst entry)) (snd entry)).

Lemma fold_left_pointwise {A B} (f g : A -> B -> A) (l : list B) :
  (forall a b, f a b = g a b) -> forall a, fold_left f l a = fold_left g l a.
Proof.
  intros H. induction l as [|b l IH]; intros a; simpl; [reflexivity|].
  rewrite H. apply IH.
Qed.

Lemma secureDeepMerge_object target proto sourceProps :
  secureDeepMerge target (VObj proto sourceProps)
  = fold_left step sourceProps (None, target).
Proof.
  cbn [secureDeepMerge]. apply fold_left_pointwise. intros r [key sv].
  unfold step, newValue. cbn [fst snd].
  destruct (isSafeKey key); cbn [negb]; [|reflexivity].
  destruct sv; reflexivity.
Qed.

Lemma secureDeepMerge_other target source :
  isPlainObject source = false -> secureDeepMerge target source = (None, target).
Proof. destruct source; try reflexivity. discriminate. Qed.

Lemma step_proto r entry : fst (step r entry) = fst r.
Proof.
  unfold step. destruct (isSafeKey (fst entry)) eqn:E; cbn [negb]; [|reflexivity].
  apply set_proto, safe_not_proto, E.
Qed.

Lemma fold_proto sps : forall r, fst (fold_left step sps r) = fst r.
Proof.
  induction sps as [|e sps IH]; intros r; simpl; [reflexivity|].
  rewrite IH. apply step_proto.
Qed.

Fixpoint findEntry (sps : props) (q : jsstring) : option value :=
  match sps with
  | [] => None
  | (k, v) :: rest => if eqb k q then Some v else findEntry rest q
  end.

Lemma findEntry_absent sps q :
  existsb (eqb q) (map fst sps) = false -> findEntry sps q = None.
Proof.
  induction sps as [|[k v] sps IH]; simpl; [reflexivity|].
  intros H. apply orb_false_iff in H. destruct H as [H1 H2].
  destruct (eqb k q) eqn:E; [|apply IH, H2].
  apply eqb_eq in E. subst. rewrite eqb_refl in H1. discriminate.
Qed.

Lemma findEntry_In sps q v :
  distinct (map fst sps) = true -> In (q, v) sps -> findEntry sps q = Some v.
Proof.
  induction sps as [|[k w] sps IH]; simpl; [contradiction|].
  intros D [E|H].
  - inversion E; subst. rewrite eqb_refl. reflexivity.
  - apply andb_true_iff in D. destruct D as [D1 D2].
    destruct (eqb k q) eqn:E; [|apply IH; assumption].
    apply eqb_eq in E. subst k. apply negb_true_iff in D1.
    assert (X : existsb (eqb q) (map fst sps) = true).
    { apply existsb_exists. exists q. split; [|apply eqb_refl].
      apply in_map_iff. exists (q, v). split; [reflexivity | exact H]. }
    congruence.
Qed.

(** The own property of the result at any key, when the keys of the
    overlay are distinct. *)
Lemma fold_getOwn sps : forall r q,
  distinct (map fst sps) = true ->
  getOwn (snd (fold_left step sps r)) q
  = match findEntry sps q with
    | Some sv =>
        if isSafeKey q then Some (newValue (get (snd r) q) sv) else getOwn (snd r) q
    | None => getOwn (snd r) q
    end.
Proof.
  induction sps as [|[k sv] sps IH]; intros r q D; [reflexivity|].
  cbn [map fst distinct] in D. apply andb_true_iff in D. destruct D as [D1 D2].
  apply negb_true_iff in D1.
  cbn [fold_left findEntry]. rewrite (IH _ q D2).
  destruct (eqb k q) eqn:E.
  - apply eqb_eq in E. subst k. rewrite (findEntry_absent _ _ D1).
    unfold step. cbn [fst snd]. destruct (isSafeKey q) eqn:S; cbn [negb]; [|reflexivity].
    apply set_same, safe_not_proto, S.
  - apply eqb_neq in E.
    assert (G : getOwn (snd (step r (k, sv))) q = getOwn (snd r) q).
    { unfold step. cbn [fst snd]. destruct (isSafeKey k); cbn [negb]; [|reflexivity].
      apply set_other, E. }
    rewrite G, (get_ext _ _ _ G). reflexivity.
Qed.

(** ** The guard at every level *)

Fixpoint size (v : value) : nat :=
  match v with
  | VObj proto ps =>
      S (fold_right (fun entry n => size (snd entry) + n) 0 ps
         + match proto with Some p => size p | None => 0 end)
  | VArr items => S (fold_right (fun item n => size item + n) 0 items)
  | _ => 1
  end.

Lemma size_entry proto ps key v : In (key, v) ps -> size v < size (VObj proto ps).
Proof.
  intros H. cbn [size].
  assert (size v <= fold_right (fun entry n => size (snd entry) + n) 0 ps).
  { induction ps as [|e ps IH]; [contradiction|]. simpl.
    destruct H as [->|H]; [simpl; lia | specialize (IH H); lia]. }
  lia.
Qed.

Lemma wellFormed_entry proto ps key v :
  wellFormed (VObj proto ps) = true -> In (key, v) ps -> wellFormed v = true.
Proof.
  cbn [wellFormed]. rewrite !andb_true_iff. intros [[_ H] _] Hin.
  rewrite forallb_forall in H. apply (H (key, v) Hin).
Qed.

Lemma unsafe_kept sps r key :
  distinct (map fst sps) = true -> isSafeKey key = false ->
  getOwn (snd (fold_left step sps r)) key = getOwn (snd r) key.
Proof.
  intros D U. rewrite (fold_getOwn _ _ key D), U.
  destruct (findEntry sps key); reflexivity.
Qed.

Lemma secureDeepMerge_guarded_sized n :
  forall source target, size source < n -> wellFormed source = true ->
                        MergedSafely target source (secureDeepMerge target source).
Proof.
  induction n as [|n IH]; intros source target Hn W; [lia|].
  destruct source as [| | b | z | s | f | items | proto sps];
    try (constructor; [reflexivity | reflexivity | discriminate]).
  rewrite secureDeepMerge_object.
  assert (D : distinct (map fst sps) = true).
  { cbn [wellFormed] in W. rewrite !andb_true_iff in W. tauto. }
  constructor.
  - apply fold_proto.
  - intros key U. apply (unsafe_kept _ (None, target) _ D U).
  - intros proto0 sps0 key proto' props' E Hin S. inversion E; subst proto0 sps0.
    exists (secureDeepMerge (plainOrEmpty (get target key)) (VObj proto' props')).
    split.
    + rewrite (fold_getOwn _ _ key D), (findEntry_In _ _ _ D Hin), S. reflexivity.
    + apply IH.
      * pose proof (size_entry proto _ _ _ Hin). lia.
      * eapply wellFormed_entry; eauto.
Qed.

(** C9.  For every base and every overlay (an object of which, at every
    level, holds each key once), [secureDeepMerge] skips the keys
    [__proto__], [constructor] and [prototype] at every level of the
    recursion: the result has the prototype of a fresh object, whatever
    the overlay holds; at each of the three keys its own property is that
    of the base (none when the base has none); and at a safe key where the
    overlay holds an object, the result holds the merge of the base's
    object there with it, for which the same is true. *)
Theorem secureDeepMerge_skips_dangerous_keys :
  forall (target : props) (source : value),
    wellFormed source = true ->
    let result := secureDeepMerge target source in
    fst result = None
    /\ getOwn (snd result) (lit "__proto__") = getOwn target (lit "__proto__")
    /\ getOwn (snd result) (lit "constructor") = getOwn target (lit "constructor")
    /\ getOwn (snd result) (lit "prototype") = getOwn target (lit "prototype")
    /\ MergedSafely target source result.
Proof.
  intros target source W result.
  assert (G : MergedSafely target source result).
  { apply (@secureDeepMerge_guarded_sized (S (size source))); [lia | exact W]. }
  inversion G as [t s r P U N]; subst t s r.
  split; [exact P|].
  split; [apply U; reflexivity|].
  split; [apply U; reflexivity|].
  split; [apply U; reflexivity | exact G].
Qed.

(** An overlay that holds the three keys at two levels, and a base. *)
Definition polluted : value :=
  VObj None [(lit "isAdmin", VBool true)].

Definition overlay : value :=
  VObj None
    [(lit "__proto__", polluted);
     (lit "name", VStr (lit "My Blog"));
     (lit "posts",
      VObj None [(lit "constructor", polluted);
                 (lit "prototype", polluted);
                 (lit "excerptLength", VNum 200)])].

Definition base : props :=
  [(lit "name", VStr (lit "Blog"));
   (lit "posts", VObj None [(lit "excerptLength", VNum 160);
                            (lit "relatedPostsCount", VNum 3)])].

Lemma secureDeepMerge_skips_dangerous_keys_witness :
  wellFormed overlay = true
  /\ fst (secureDeepMerge base overlay) = None
  /\ getOwn (snd (secureDeepMerge base overlay)) (lit "__proto__") = None.
Proof.
  assert (W : wellFormed overlay = true) by reflexivity.
  split; [exact W|].
  split; [exact (proj1 (@secureDeepMerge_skips_dangerous_keys base overlay W))|].
  exact (proj1 (proj2 (@secureDeepMerge_skips_dangerous_keys base overlay W))).
Defined.

(** What the merge of the example is, and what the assignment that the
    guard prevents would do. *)
Example secureDeepMerge_example :
  secureDeepMerge base overlay
  = (None,
     [(lit "name", VStr (lit "My Blog"));
      (lit "posts", VObj None [(lit "excerptLength", VNum 200);
                               (lit "relatedPostsCount", VNum 3)])]).
Proof. vm_compute. reflexivity. Qed.

Example set_proto_key_replaces_prototype :
  set (None, base) (lit "__proto__") polluted = (Some polluted, base).
Proof. vm_compute. reflexivity. Qed.

End MergeProofs.

(* ================================================================== *)
(** * Messages *)
(* ================================================================== *)

Module MessagesProofs.
Import JsFacts JsValue Messages.

Lemma get_own_string ps k m : getOwn ps k = Some (VStr m) -> get ps k = VStr m.
Proof. intros H. unfold get. rewrite H. reflexivity. Qed.

Lemma defaultMessages_no_prototype : get defaultMessages (lit "prototype") = VUndefined.
Proof. vm_compute. reflexivity. Qed.

(** C10, as amended.  The getter rejects the keys that are not strings and
    the keys [__proto__] and [constructor], with the fallback when it is
    not empty and the sentinel [INVALID_KEY] otherwise; any other key is
    looked up.  The key [prototype] is such a key and is not in the
    default messages: when it is not in the user messages either, the
    getter returns the fallback when one that is not empty is given, and
    the key itself otherwise. *)
Theorem getter_rejects_only_proto_and_constructor :
  forall (call : jsstring -> list value -> option value) (messages : props)
         (fallback : option jsstring) (args : list value),
    (forall key, isRejectedKey key = true ->
                 createMessageGetter call messages key fallback args
                 = Returns (VStr (orElse fallback (lit "INVALID_KEY"))))
    /\ (forall k m, isRejectedKey (VStr k) = false ->
                    getOwn messages k = Some (VStr m) ->
                    createMessageGetter call messages (VStr k) fallback args
                    = Returns (VStr m))
    /\ isRejectedKey (VStr (lit "prototype")) = false
    /\ get defaultMessages (lit "prototype") = VUndefined
    /\ (get messages (lit "prototype") = VUndefined ->
        createMessageGetter call messages (VStr (lit "prototype")) fallback args
        = Returns (VStr (orElse fallback (lit "prototype")))
        /\ (forall text, fallback = Some text -> text <> [] ->
                         createMessageGetter call messages (VStr (lit "prototype"))
                           fallback args = Returns (VStr text))
        /\ (fallback = None ->
            createMessageGetter call messages (VStr (lit "prototype")) fallback args
            = Returns (VStr (lit "prototype")))).
Proof.
  intros call messages fallback args.
  split; [|split; [|split; [|split]]].
  - intros key H. unfold createMessageGetter, fallbackOr.
    destruct key; try reflexivity. simpl in H. rewrite H. reflexivity.
  - intros k m H E. unfold createMessageGetter. simpl in H. rewrite H.
    rewrite (get_own_string _ _ E). reflexivity.
  - reflexivity.
  - apply defaultMessages_no_prototype.
  - intros H.
    assert (E : createMessageGetter call messages (VStr (lit "prototype")) fallback args
                = Returns (VStr (orElse fallback (lit "prototype")))).
    { unfold createMessageGetter.
      change (eqb (lit "prototype") (lit "__proto__")
              || eqb (lit "prototype") (lit "constructor"))%bool with false.
      cbv iota. rewrite H, defaultMessages_no_prototype. reflexivity. }
    split; [exact E|]. split.
    + intros text F Hne. rewrite E, F. destruct text; [congruence | reflexivity].
    + intros F. rewrite E, F. reflexivity.
Qed.

Definition neverCalled (name : jsstring) (args : list value) : option value := None.

Lemma getter_rejects_only_proto_and_constructor_witness :
  isRejectedKey (VNum 3) = true
  /\ createMessageGetter neverCalled [] (VNum 3) None []
     = Returns (VStr (lit "INVALID_KEY"))
  /\ get [] (lit "prototype") = VUndefined
  /\ createMessageGetter neverCalled [] (VStr (lit "prototype")) None []
     = Returns (VStr (lit "prototype")).
Proof.
  pose (T := @getter_rejects_only_proto_and_constructor neverCalled [] None []).
  assert (H1 : isRejectedKey (VNum 3) = true) by reflexivity.
  assert (H2 : get [] (lit "prototype") = VUndefined) by reflexivity.
  split; [exact H1|].
  split; [exact (proj1 T (VNum 3) H1)|].
  split; [exact H2|].
  exact (proj2 (proj2 (proj2 (proj2 (proj2 (proj2 T))) H2)) eq_refl).
Defined.

(** C10 as stated fails for the fallback that is given and empty: the key
    is returned, not the fallback. *)
Lemma getter_ignores_an_empty_fallback :
  get [] (lit "prototype") = VUndefined
  /\ createMessageGetter neverCalled [] (VStr (lit "prototype")) (Some []) []
     = Returns (VStr (lit "prototype"))
  /\ createMessageGetter neverCalled [] (VStr (lit "prototype")) (Some []) []
     <> Returns (VStr []).
Proof.
  split; [reflexivity|].
  split; [vm_compute; reflexivity | vm_compute; discriminate].
Qed.

End MessagesProofs.

(* ================================================================== *)
(** * The post pipeline *)
(* ================================================================== *)

Module PipelineProofs.
Import JsFacts Blog Pipeline.

(** ** The month of a path *)

Lemma padded_month_length (m : Z) :
  (0 <= m <= 11)%Z -> length (padStart 2 48 (numToString (m + 1))) = 2.
Proof.
  intros H.
  assert (C : (m = 0 \/ m = 1 \/ m = 2 \/ m = 3 \/ m = 4 \/ m = 5 \/ m = 6 \/ m = 7
               \/ m = 8 \/ m = 9 \/ m = 10 \/ m = 11)%Z) by lia.
  repeat (destruct C as [->|C]; [reflexivity|]). subst. reflexivity.
Qed.

Section WithPlatform.

Variable parseDate : jsstring -> option Z.
Variable getFullYear : Z -> Z.
Variable getMonth : Z -> Z.
Variable getMarkdownContent : jsstring -> jsstring.
Variable blogConfig : BlogConfig.

#[local] Abbreviation processPost := (processPost parseDate getFullYear getMonth getMarkdownContent
                                    blogConfig).
#[local] Abbreviation loadPosts := (loadPosts parseDate getFullYear getMonth getMarkdownContent
                                blogConfig).
#[local] Abbreviation getAllPosts := (getAllPosts parseDate getFullYear getMonth getMarkdownContent
                                    blogConfig).
#[local] Abbreviation validPost := (validPost parseDate getFullYear getMonth).
#[local] Abbreviation newestFirst := (newestFirst parseDate).
#[local] Abbreviation fromEntry := (fromEntry parseDate getFullYear getMonth).
#[local] Abbreviation timeOf := (timeOf parseDate).
#[local] Abbreviation compareByDate := (compareByDate parseDate).
#[local] Abbreviation Reachable := (Reachable parseDate getFullYear getMonth getMarkdownContent
                                 blogConfig).

(** ** One entry *)

(** What every post made from an entry has. *)
Definition madeFrom (filePath : jsstring) (metadata : PostMetadata) (post : ProcessedPost)
  : Prop :=
  exists date time,
    fm_date metadata = Some date /\ date <> []
    /\ parseDate date = Some time
    /\ post_date post = Some date
    /\ post_urlPath post = urlPathOf getFullYear getMonth time (slugOf metadata filePath).

Lemma processPost_made lang ic il filePath metadata post :
  In post (processPost lang ic il filePath (Some metadata)) ->
  madeFrom filePath metadata post.
Proof.
  unfold Pipeline.processPost.
  destruct (fm_date metadata) as [date|] eqn:Ed; [|contradiction].
  destruct (truthy date) eqn:Et; [|contradiction]. cbn [negb].
  destruct (parseDate date) as [time|] eqn:Ep; [|contradiction].
  cbv zeta.
  assert (Hne : date <> []) by (intros ->; discriminate).
  assert (Hslug : forall m, fm_slug m = fm_slug metadata ->
                            slugOf m filePath = slugOf metadata filePath).
  { intros m E. unfold slugOf. rewrite E. reflexivity. }
  set (metadata' := if hasReadTime metadata then metadata else withReadTime metadata _).
  assert (Hs : slugOf metadata' filePath = slugOf metadata filePath).
  { apply Hslug. unfold metadata'. destruct (hasReadTime metadata); reflexivity. }
  assert (Base : forall fm path content lng,
             madeFrom filePath metadata
               {| post_fm := fm; post_date := Some date;
                  post_urlPath := urlPathOf getFullYear getMonth time
                                            (slugOf metadata filePath);
                  post_path := path; post_content := content; post_lang := lng |}).
  { intros. exists date, time. repeat split; assumption. }
  intros Hin.
  destruct (fm_i18n metadata') as [i18n|].
  - destruct il.
    + destruct Hin as [<-|Hin]; [apply Base|].
      apply in_map_iff in Hin. destruct Hin as [entry [<- _]]. apply Base.
    + destruct (if eqb lang (lit "en") then None else Routes.lookup lang i18n);
        destruct Hin as [<-|[]]; apply Base.
  - destruct Hin as [<-|[]]. apply Base.
Qed.

Lemma processPost_lacksDate lang ic il filePath postModule :
  lacksDate parseDate postModule -> processPost lang ic il filePath postModule = [].
Proof.
  unfold lacksDate, Pipeline.processPost.
  destruct postModule as [metadata|]; [|reflexivity].
  destruct (fm_date metadata) as [date|]; [|reflexivity].
  intros [->|H]; [reflexivity|].
  destruct (truthy date); [|reflexivity]. cbn [negb]. rewrite H. reflexivity.
Qed.

Lemma processPost_gives lang ic il filePath metadata date time :
  fm_date metadata = Some date -> date <> [] -> parseDate date = Some time ->
  exists post, In post (processPost lang ic il filePath (Some metadata)).
Proof.
  intros Ed Hne Ep. unfold Pipeline.processPost. rewrite Ed.
  destruct date as [|c date]; [congruence|]. cbn [truthy negb]. rewrite Ep. cbv zeta.
  match goal with
  | |- context [match ?x with Some _ => _ | None => _ end] => destruct x as [i18n|]
  end; [|eexists; left; reflexivity].
  destruct il; [eexists; left; reflexivity|].
  destruct (if eqb lang (lit "en") then None else Routes.lookup lang i18n);
    eexists; left; reflexivity.
Qed.

Lemma madeFrom_valid filePath metadata post :
  madeFrom filePath metadata post -> validPost post.
Proof.
  intros [date [time [_ [_ [Hp [Hd Hu]]]]]].
  exists date, time, (slugOf metadata filePath). repeat split; assumption.
Qed.

(** ** Sorting *)

Lemma insertSorted_In cmp x l p : In p (insertSorted cmp x l) <-> p = x \/ In p l.
Proof.
  induction l as [|y r IH]; simpl.
  - intuition.
  - destruct (cmp x y <=? 0)%Z; simpl; [intuition | rewrite IH; intuition].
Qed.

Lemma sortPosts_In cmp l p : In p (sortPosts cmp l) <-> In p l.
Proof.
  induction l as [|x l IH]; simpl; [reflexivity|].
  rewrite insertSorted_In, IH. intuition.
Qed.

Lemma sortPosts_Permutation cmp l : Permutation (sortPosts cmp l) l.
Proof.
  induction l as [|x l IH]; simpl; [constructor|].
  transitivity (x :: sortPosts cmp l); [|constructor; exact IH].
  generalize (sortPosts cmp l). clear. intros s.
  induction s as [|y r IH]; simpl; [reflexivity|].
  destruct (cmp x y <=? 0)%Z; [reflexivity|].
  transitivity (y :: x :: r); [constructor; exact IH | constructor].
Qed.

Definition notNewer (a b : ProcessedPost) : Prop :=
  exists ta tb, timeOf a = Some ta /\ timeOf b = Some tb /\ (tb <= ta)%Z.

Lemma insertSorted_sorted x l :
  (exists t, timeOf x = Some t) ->
  Forall (fun p => exists t, timeOf p = Some t) l ->
  StronglySorted notNewer l ->
  StronglySorted notNewer (insertSorted compareByDate x l).
Proof.
  intros [tx Hx] Hall Hs. induction Hs as [|y r Hs IH Hy]; simpl.
  - constructor; constructor.
  - inversion Hall as [|? ? [ty Hty] Hr]; subst.
    unfold Pipeline.compareByDate at 1. rewrite Hty, Hx.
    destruct (Z.leb_spec (ty - tx) 0).
    + constructor; [constructor; assumption|].
      constructor.
      * exists tx, ty. repeat split; try assumption. lia.
      * rewrite Forall_forall in *. intros z Hz.
        destruct (Hy z Hz) as [ty' [tz [E1 [E2 L]]]].
        exists tx, tz. repeat split; try assumption. rewrite Hty in E1.
        inversion E1; subst. lia.
    + constructor; [apply IH; assumption|].
      rewrite Forall_forall in *. intros z Hz. apply insertSorted_In in Hz.
      destruct Hz as [->|Hz]; [|apply Hy, Hz].
      exists ty, tx. repeat split; try assumption. lia.
Qed.

Lemma sortPosts_sorted l :
  Forall (fun p => exists t, timeOf p = Some t) l ->
  StronglySorted notNewer (sortPosts compareByDate l).
Proof.
  induction 1 as [|x l Hx Hl IH]; simpl; [constructor|].
  apply insertSorted_sorted; [exact Hx | | exact IH].
  rewrite Forall_forall in *. intros p Hp. apply sortPosts_In in Hp. apply Hl, Hp.
Qed.

(** ** A load *)

Lemma loadPosts_In lang ic il posts sorted p :
  loadPosts lang ic il posts = Some sorted ->
  (In p sorted <->
   exists filePath r, In (filePath, r) posts
                      /\ In p (processPost lang ic il filePath (moduleOf r))).
Proof.
  unfold Pipeline.loadPosts. destruct (existsb isRejected posts); [discriminate|].
  intros E. inversion E; subst. rewrite sortPosts_In, in_concat. split.
  - intros [l [Hl Hp]]. apply in_map_iff in Hl. destruct Hl as [[filePath r] [<- Hin]].
    exists filePath, r. split; assumption.
  - intros [filePath [r [Hin Hp]]].
    exists (processPost lang ic il filePath (moduleOf r)). split; [|exact Hp].
    apply in_map_iff. exists (filePath, r). split; [reflexivity | exact Hin].
Qed.

Lemma loadPosts_fromEntry lang ic il posts sorted p :
  loadPosts lang ic il posts = Some sorted -> In p sorted -> fromEntry posts p.
Proof.
  intros E Hp. apply (loadPosts_In _ _ _ _ p E) in Hp.
  destruct Hp as [filePath [r [Hin Hp]]].
  destruct r as [|[metadata|]]; try contradiction.
  apply processPost_made in Hp.
  destruct Hp as [date [time [Hd [Hne [Ht [Hpd Hu]]]]]].
  exists filePath, metadata, date, time. repeat split; assumption.
Qed.

Lemma loadPosts_Permutation lang ic il posts sorted :
  loadPosts lang ic il posts = Some sorted ->
  Permutation sorted
    (concat (map (fun entry => processPost lang ic il (fst entry) (moduleOf (snd entry)))
                 posts)).
Proof.
  unfold Pipeline.loadPosts. destruct (existsb isRejected posts); [discriminate|].
  intros E. inversion E; subst. apply sortPosts_Permutation.
Qed.

Lemma loadPosts_keeps lang ic il posts sorted filePath metadata date time :
  loadPosts lang ic il posts = Some sorted ->
  In (filePath, Module (Some metadata)) posts ->
  fm_date metadata = Some date -> date <> [] -> parseDate date = Some time ->
  exists p, In p sorted /\ post_date p = Some date
            /\ post_urlPath p
               = urlPathOf getFullYear getMonth time (slugOf metadata filePath).
Proof.
  intros L Hin Ed Hne Ep.
  destruct (processPost_gives lang ic il filePath metadata Ed Hne Ep) as [p Hp].
  exists p. split.
  - apply (loadPosts_In _ _ _ _ p L). exists filePath, (Module (Some metadata)).
    split; assumption.
  - apply processPost_made in Hp.
    destruct Hp as [date' [time' [Ed' [_ [Ep' [Hd Hu]]]]]].
    rewrite Ed in Ed'. inversion Ed'; subst date'.
    rewrite Ep in Ep'. inversion Ep'; subst time'. split; assumption.
Qed.

Lemma fromEntry_valid posts p : fromEntry posts p -> validPost p.
Proof.
  intros [filePath [metadata [date [time [_ [_ [_ [Ht [Hd Hu]]]]]]]]].
  exists date, time, (slugOf metadata filePath). repeat split; assumption.
Qed.

Lemma validPost_time p : validPost p -> exists t, timeOf p = Some t.
Proof.
  intros [date [time [slug [Hd [Ht _]]]]]. exists time.
  unfold Pipeline.timeOf. rewrite Hd. exact Ht.
Qed.

Lemma loadPosts_good lang ic il posts sorted :
  loadPosts lang ic il posts = Some sorted ->
  Forall validPost sorted /\ newestFirst sorted.
Proof.
  intros E.
  assert (V : Forall validPost sorted).
  { apply Forall_forall. intros p Hp.
    eapply fromEntry_valid, loadPosts_fromEntry; eauto. }
  split; [exact V|].
  unfold Pipeline.loadPosts in E. destruct (existsb isRejected posts); [discriminate|].
  inversion E as [E']. rewrite E'. unfold Pipeline.newestFirst.
  rewrite <- E'. apply sortPosts_sorted.
  apply Forall_forall. intros p Hp. apply validPost_time.
  rewrite Forall_forall in V. apply V. rewrite <- E'. apply sortPosts_In. exact Hp.
Qed.

Lemma loadPosts_returns lang ic il posts :
  existsb isRejected posts = false -> exists sorted, loadPosts lang ic il posts = Some sorted.
Proof. intros H. unfold Pipeline.loadPosts. rewrite H. eauto. Qed.

(** ** The cache *)

Definition goodCache (cache : Cache) : Prop :=
  forall key entry, cache key = Some entry ->
                    Forall validPost (cached_posts entry)
                    /\ newestFirst (cached_posts entry).

Lemma getAllPosts_cases cache now later posts options :
  let lang := over (opt_lang options) (lit "en") in
  let ic := over (opt_includeContent options) false in
  let il := over (opt_includeLocalizedVersions options) false in
  (exists cached, cache (lang, ic, il) = Some cached
                  /\ (now - cached_timestamp cached < CACHE_TTL)%Z
                  /\ getAllPosts cache now later posts options
                     = (Some (cached_posts cached), cache))
  \/ (getAllPosts cache now later posts options
      = match loadPosts lang ic il posts with
        | None => (None, cache)
        | Some sorted =>
            (Some sorted,
             cacheSet cache (lang, ic, il)
                      {| cached_posts := sorted; cached_timestamp := later |})
        end).
Proof.
  cbv zeta. unfold Pipeline.getAllPosts.
  destruct (cache _) as [cached|] eqn:E; [|right; reflexivity].
  destruct (Z.ltb_spec (now - cached_timestamp cached) CACHE_TTL).
  - left. exists cached. repeat split; assumption.
  - right. reflexivity.
Qed.

Lemma getAllPosts_good cache now later posts options :
  goodCache cache ->
  goodCache (snd (getAllPosts cache now later posts options))
  /\ (forall result, fst (getAllPosts cache now later posts options) = Some result ->
                     Forall validPost result /\ newestFirst result).
Proof.
  intros G.
  destruct (getAllPosts_cases cache now later posts options)
    as [[cached [E [_ ->]]]| ->].
  - split; [exact G|]. intros result R. inversion R; subst. apply (G _ _ E).
  - destruct (loadPosts _ _ _ posts) as [sorted|] eqn:L.
    + pose proof (loadPosts_good _ _ _ _ L) as Good.
      split; [|intros result R; inversion R; subst; exact Good].
      intros key entry. cbn [snd]. unfold cacheSet.
      destruct (cacheKeyEqb key _); [|apply G].
      intros E. inversion E; subst. exact Good.
    + split; [exact G | intros result R; discriminate].
Qed.

Lemma Reachable_good cache : Reachable cache -> goodCache cache.
Proof.
  induction 1 as [|cache _ _|cache now later posts options _ IH].
  - intros key entry E. discriminate.
  - intros key entry E. discriminate.
  - apply getAllPosts_good, IH.
Qed.

Lemma getAllPosts_returns cache now later posts options :
  existsb isRejected posts = false ->
  exists result, fst (getAllPosts cache now later posts options) = Some result.
Proof.
  intros H.
  destruct (getAllPosts_cases cache now later posts options)
    as [[cached [_ [_ ->]]]| ->]; [simpl; eauto|].
  unfold Pipeline.loadPosts. rewrite H. simpl. eauto.
Qed.

End WithPlatform.


(** ** An example platform

    Dates of the form [YYYY-MM-DD]; a time value counts the days of a
    calendar of twelve months of 31 days. *)

Definition digit (c : N) : option Z :=
  if inRange 48 57 c then Some (Z.of_N c - 48)%Z else None.

Definition number2 (a b : N) : option Z :=
  match digit a, digit b with
  | Some x, Some y => Some (10 * x + y)%Z
  | _, _ => None
  end.

Definition exampleParseDate (s : jsstring) : option Z :=
  match s with
  | [y1; y2; y3; y4; d1; m1; m2; d2; a1; a2] =>
      match number2 y1 y2, number2 y3 y4, number2 m1 m2, number2 a1 a2 with
      | Some yh, Some yl, Some m, Some d =>
          if (N.eqb d1 45 && N.eqb d2 45 && (1 <=? m)%Z && (m <=? 12)%Z
              && (1 <=? d)%Z && (d <=? 31)%Z)%bool
          then Some ((((100 * yh + yl) * 12 + (m - 1)) * 31) + (d - 1))%Z
          else None
      | _, _, _, _ => None
      end
  | _ => None
  end.

Definition exampleYear (t : Z) : Z := (t / 372)%Z.
Definition exampleMonth (t : Z) : Z := ((t / 31) mod 12)%Z.
Definition exampleBody (filePath : jsstring) : jsstring := [].

Lemma exampleMonth_range t : (0 <= exampleMonth t <= 11)%Z.
Proof.
  unfold exampleMonth. pose proof (Z.mod_pos_bound (t / 31) 12 ltac:(lia)). lia.
Defined.

Definition metadataOf (date slug : option jsstring) : PostMetadata :=
  {| fm_title := Some (lit "Test Post"); fm_date := date; fm_slug := slug;
     fm_categories := None; fm_category := None; fm_excerpt := None;
     fm_author := None; fm_tags := None; fm_readTime := None; fm_updated := None;
     fm_i18n := None |}.

Definition exampleFiles : PostFilesRecord :=
  [(lit "@blog/2024/01/test-post.md",
    Module (Some (metadataOf (Some (lit "2024-01-15")) None)));
   (lit "@blog/drafts/no-date.md", Module (Some (metadataOf None None)));
   (lit "@blog/drafts/soon.md", Module (Some (metadataOf (Some (lit "soon")) None)));
   (lit "@blog/2024/03/file.md",
    Module (Some (metadataOf (Some (lit "2024-03-02")) (Some (lit "custom")))))].

Definition defaultOptions : GetAllPostsOptions :=
  {| opt_lang := None; opt_includeContent := None;
     opt_includeLocalizedVersions := None |}.

Definition exampleOutcome : option (list ProcessedPost) * Cache :=
  getAllPosts exampleParseDate exampleYear exampleMonth exampleBody
              ReadTimeProofs.exampleConfig emptyCache 0 0 exampleFiles defaultOptions.

(** The two entries with a date that parses give the list, newest first;
    the other two give nothing. *)
Example getAllPosts_example :
  option_map (map (fun p => (post_date p, post_urlPath p))) (fst exampleOutcome)
  = Some [(Some (lit "2024-03-02"), lit "/2024/03/custom");
          (Some (lit "2024-01-15"), lit "/2024/01/test-post")].
Proof. vm_compute. reflexivity. Qed.


End PipelineProofs.
